(** * A ten-band peaking equalizer: model of [audio_equalizer.py]

    The development embeds the signal-processing core of the program, the
    class [AudioEqualizer]: the synthesis of the biquad coefficients of a
    band ([create_peak_filter]), the cascade over a block of samples
    ([apply_equalizer]) and the gain table ([set_gain]).

    Numbers.  Samples, gains and coefficients are real numbers: the
    arithmetic of the program is read as exact arithmetic, so the rounding,
    the overflow and the NaN values of binary64 are outside the model.  The
    threshold [0.1] is the real number one tenth.

    Arrays.  A numpy array is a mutable object: the model keeps the arrays
    in a store and names them by references, and every numpy operation says
    whether it allocates a new array or writes in place. *)

From Stdlib Require Import Reals Lra.
From stdpp Require Import base option list strings gmap.

Open Scope R_scope.

(** ** Outcomes of a call *)

(** What a Python call can raise.  [KeyError], [ZeroDivisionError] and
    [IndexError] are the exceptions of the operations the modelled methods
    use (a dictionary lookup, a quotient of Python numbers, a column of an
    array); [InvalidReference] is the
    outcome of using a reference that names no array of the store (it cannot
    happen in Python, where a name always denotes an object).  The
    specification speaks of two more errors, [UnknownBand] and
    [InvalidParameter]: the source defines neither and no operation below
    produces them; they are here so that statements about them can be
    written. *)
Inductive exn : Set :=
| KeyError
| ZeroDivisionError
| IndexError
| InvalidReference
| UnknownBand
| InvalidParameter.

Inductive result (A : Type) : Type :=
| Ok (a : A)
| Err (e : exn).
Arguments Ok {A} a.
Arguments Err {A} e.

(** ** The equalizer object *)

Record AudioEqualizer : Type := mkAudioEqualizer {
  sample_rate : R;
  block_size : nat;
  is_running : bool;
  bands : list (string * R);
  gains : gmap string R;
  q_factor : R
}.

(** The ten bands, in the order in which the dictionary literal lists them
    (a Python [dict] iterates in insertion order). *)
Definition default_bands : list (string * R) :=
  [ ("60 Hz"%string, 60); ("170 Hz"%string, 170); ("310 Hz"%string, 310);
    ("600 Hz"%string, 600); ("1 kHz"%string, 1000); ("3 kHz"%string, 3000);
    ("6 kHz"%string, 6000); ("12 kHz"%string, 12000);
    ("14 kHz"%string, 14000); ("16 kHz"%string, 16000) ].

(** [__init__]: [self.gains = {band: 0.0 for band in self.bands}]. *)
Definition AudioEqualizer_init : AudioEqualizer :=
  {| sample_rate := 44100;
     block_size := 2048;
     is_running := false;
     bands := default_bands;
     gains := list_to_map (map (fun band => (band.1, 0)) default_bands);
     q_factor := 1 |}.

(** ** Coefficient synthesis *)

(** Three coefficients, as [np.array([c0, c1, c2])]. *)
Definition coeffs : Type := R * R * R.

(** The six coefficients of [create_peak_filter] before the normalisation, in
    the order [(b0, b1, b2, a0, a1, a2)].  [10 ** x] is [Rpower 10 x]. *)
Definition peak_coefficients (w0 gain_db q_factor : R) : R * R * R * R * R * R :=
  let gain := Rpower 10 (gain_db / 20) in
  let alpha := sin w0 / (2 * q_factor) in
  let A := gain in
  let b0 := 1 + alpha * A in
  let b1 := -2 * cos w0 in
  let b2 := 1 - alpha * A in
  let a0 := 1 + alpha / A in
  let a1 := -2 * cos w0 in
  let a2 := 1 - alpha / A in
  (b0, b1, b2, a0, a1, a2).

(** The unnormalised [a0] of a band. *)
Definition peak_a0 (w0 gain_db q_factor : R) : R :=
  let '(_, _, _, a0, _, _) := peak_coefficients w0 gain_db q_factor in a0.

(** [w0 = 2 * np.pi * center_freq / self.sample_rate]: the quotient of two
    Python numbers, which raises [ZeroDivisionError] on a zero divisor. *)
Definition angular_frequency (self : AudioEqualizer) (center_freq : R) : result R :=
  if Req_dec_T (sample_rate self) 0 then Err ZeroDivisionError
  else Ok (2 * PI * center_freq / sample_rate self).

(** [create_peak_filter]: returns the pair [(b, a)] of normalised
    coefficients.  There is no check of the arguments.  The arithmetic is
    read exactly: the [OverflowError] that [10 ** x] raises in binary64
    when the power is beyond the largest number (a gain above some
    6165 dB), and the infinite and NaN coefficients that an overflowing
    quotient leaves at very negative gains, have no counterpart here.  A
    statement that holds of the running program for moderate gains only
    carries the bound on the gain as a hypothesis. *)
Definition create_peak_filter (self : AudioEqualizer)
    (center_freq gain_db q_factor : R) : result (coeffs * coeffs) :=
  match angular_frequency self center_freq with
  | Err e => Err e
  | Ok w0 =>
      let '(b0, b1, b2, a0, a1, a2) := peak_coefficients w0 gain_db q_factor in
      let b := (b0 / a0, b1 / a0, b2 / a0) in
      let a := (1, a1 / a0, a2 / a0) in
      Ok (b, a)
  end.

(** ** Arrays and the store *)

(** A numpy array of samples: one-dimensional (mono, shape [(frames,)]) or
    two-dimensional (shape [(frames, channels)], one row per frame).  A
    two-dimensional array records its number of columns, so that its shape
    is defined when it has no row. *)
Inductive ndarray : Type :=
| Array1 (samples : list R)
| Array2 (ncols : nat) (rows : list (list R)).

Definition shape (arr : ndarray) : list nat :=
  match arr with
  | Array1 samples => [length samples]
  | Array2 ncols rows => [length rows; ncols]
  end.

(** numpy arrays are rectangular. *)
Definition rectangular (arr : ndarray) : Prop :=
  match arr with
  | Array1 _ => True
  | Array2 ncols rows => Forall (fun row => length row = ncols) rows
  end.

(** All the samples of an array satisfy [P]. *)
Definition all_samples (P : R -> Prop) (arr : ndarray) : Prop :=
  match arr with
  | Array1 samples => Forall P samples
  | Array2 _ rows => Forall (Forall P) rows
  end.

(** [rows[:, ch]] and [rows[:, ch] = values]. *)
Definition get_column (ch : nat) (rows : list (list R)) : list R :=
  map (fun row => nth ch row 0) rows.

Definition set_column (ch : nat) (values : list R) (rows : list (list R))
    : list (list R) :=
  zip_with (fun row v => <[ch := v]> row) rows values.

(** The store: the arrays allocated so far; a reference is an index. *)
Abbreviation ref := nat (only parsing).
Abbreviation store := (list ndarray) (only parsing).

(** Computations that read and write the store and may raise. *)
Definition M (A : Type) : Type := store -> result (A * store).

#[global] Instance M_ret : MRet M := fun A a st => Ok (a, st).
#[global] Instance M_bind : MBind M := fun A B f m st =>
  match m st with
  | Ok (a, st') => f a st'
  | Err e => Err e
  end.

Definition raise {A : Type} (e : exn) : M A := fun _ => Err e.

Definition lift {A : Type} (r : result A) : M A :=
  fun st => match r with Ok a => Ok (a, st) | Err e => Err e end.

Definition load (r : ref) : M ndarray :=
  fun st => match st !! r with
            | Some arr => Ok (arr, st)
            | None => Err InvalidReference
            end.

Definition alloc (arr : ndarray) : M ref :=
  fun st => Ok (length st, st ++ [arr]).

Definition write (r : ref) (arr : ndarray) : M unit :=
  fun st => match st !! r with
            | Some _ => Ok (tt, <[r := arr]> st)
            | None => Err InvalidReference
            end.

(** [d[key]] on a dictionary. *)
Definition dict_get (d : gmap string R) (key : string) : M R :=
  match d !! key with
  | Some v => mret v
  | None => raise KeyError
  end.

(** [for x in xs: s = body(s, x)]. *)
Fixpoint for_each {A S : Type} (body : S -> A -> M S) (xs : list A) (s : S)
    : M S :=
  match xs with
  | [] => mret s
  | x :: xs' => s' ← body s x; for_each body xs' s'
  end.

(** ** The numpy and scipy operations *)

(** [scipy.signal.lfilter(b, a, x)] for three-tap [b] and [a], without
    initial conditions: the direct form II transposed recurrence, after the
    division of all coefficients by [a[0]], started from a zero state.
    [z0] and [z1] are the two delay values. *)
Fixpoint lfilter_from (b a : coeffs) (z0 z1 : R) (x : list R) : list R :=
  match x with
  | [] => []
  | xn :: x' =>
      let '(b0, b1, b2) := b in
      let '(a0, a1, a2) := a in
      let yn := b0 / a0 * xn + z0 in
      yn :: lfilter_from b a
              (b1 / a0 * xn - a1 / a0 * yn + z1)
              (b2 / a0 * xn - a2 / a0 * yn) x'
  end.

Definition lfilter (b a : coeffs) (x : list R) : list R :=
  lfilter_from b a 0 0 x.

(** [np.clip(x, lo, hi)] on one sample: [minimum(maximum(x, lo), hi)]. *)
Definition clip (lo hi x : R) : R := Rmin (Rmax x lo) hi.

Definition clip_array (lo hi : R) (arr : ndarray) : ndarray :=
  match arr with
  | Array1 samples => Array1 (map (clip lo hi) samples)
  | Array2 ncols rows => Array2 ncols (map (map (clip lo hi)) rows)
  end.

(** [arr.copy()] and [np.clip(arr, lo, hi)] return a new array. *)
Definition ndarray_copy (r : ref) : M ref :=
  arr ← load r; alloc arr.

Definition np_clip (r : ref) (lo hi : R) : M ref :=
  arr ← load r; alloc (clip_array lo hi arr).

(** ** The cascade *)

(** [output[:, ch] = signal.lfilter(b, a, output[:, ch])]: the column is
    filtered into a new vector, which is then written over the column of
    the array [output] refers to.  Samples are real numbers, so an array
    stands for a block of [float64] samples: the conversion that the
    write performs into an array of another type (integers, [float32])
    has no counterpart here. *)
Definition filter_channel (b a : coeffs) (output : ref) (ch : nat) : M unit :=
  arr ← load output;
  match arr with
  | Array1 _ => raise IndexError
  | Array2 ncols rows =>
      write output
        (Array2 ncols (set_column ch (lfilter b a (get_column ch rows)) rows))
  end.

(** The body of the loop over the bands; [output] is the array the variable
    [output] refers to before the iteration, the result the one it refers
    to after it. *)
Definition apply_band (self : AudioEqualizer) (output : ref)
    (band : string * R) : M ref :=
  let '(band_name, center_freq) := band in
  gain_db ← dict_get (gains self) band_name;
  if Rlt_dec (1 / 10) (Rabs gain_db) then
    '(b, a) ← lift (create_peak_filter self center_freq gain_db (q_factor self));
    arr ← load output;
    match arr with
    | Array1 samples => alloc (Array1 (lfilter b a samples))
    | Array2 ncols _ =>
        for_each (fun _ ch => filter_channel b a output ch) (seq 0 ncols) tt;;
        mret output
    end
  else mret output.

(** [apply_equalizer(audio_data)]: the reference of the returned array. *)
Definition apply_equalizer (self : AudioEqualizer) (audio_data : ref) : M ref :=
  output ← ndarray_copy audio_data;
  output ← for_each (apply_band self) (bands self) output;
  np_clip output (-1) 1.

(** ** The gain table *)

(** [set_gain]: the object after the call.  The method returns [None] on
    both sides of its test and raises nothing. *)
Definition with_gains (self : AudioEqualizer) (table : gmap string R)
    : AudioEqualizer :=
  {| sample_rate := sample_rate self;
     block_size := block_size self;
     is_running := is_running self;
     bands := bands self;
     gains := table;
     q_factor := q_factor self |}.

Definition set_gain (self : AudioEqualizer) (band_name : string) (gain_db : R)
    : result AudioEqualizer :=
  if decide (is_Some (gains self !! band_name)) then
    Ok (with_gains self (<[band_name := gain_db]> (gains self)))
  else Ok self.

(** ** The cascade as a function on array contents *)

(** What the loop over the channels leaves in a two-dimensional array. *)
Definition filter_columns (b a : coeffs) (chs : list nat)
    (rows : list (list R)) : list (list R) :=
  foldl (fun rows ch => set_column ch (lfilter b a (get_column ch rows)) rows)
        rows chs.

Definition filter_array (b a : coeffs) (arr : ndarray) : ndarray :=
  match arr with
  | Array1 samples => Array1 (lfilter b a samples)
  | Array2 ncols rows => Array2 ncols (filter_columns b a (seq 0 ncols) rows)
  end.

(** The contents of [output] after one iteration of the loop over the
    bands, from its contents before. *)
Definition band_contents (self : AudioEqualizer) (arr : ndarray)
    (band : string * R) : result ndarray :=
  match gains self !! band.1 with
  | None => Err KeyError
  | Some gain_db =>
      if Rlt_dec (1 / 10) (Rabs gain_db) then
        match create_peak_filter self band.2 gain_db (q_factor self) with
        | Ok (b, a) => Ok (filter_array b a arr)
        | Err e => Err e
        end
      else Ok arr
  end.

Fixpoint cascade (self : AudioEqualizer) (bs : list (string * R))
    (arr : ndarray) : result ndarray :=
  match bs with
  | [] => Ok arr
  | band :: bs' =>
      match band_contents self arr band with
      | Ok arr' => cascade self bs' arr'
      | Err e => Err e
      end
  end.

Definition equalized (self : AudioEqualizer) (arr : ndarray) : result ndarray :=
  match cascade self (bands self) arr with
  | Ok arr' => Ok (clip_array (-1) 1 arr')
  | Err e => Err e
  end.

(** ** States in which the cascade returns *)

(** The two conditions under which no exception is raised: the sample rate
    is not zero and the gain table has an entry for every band.  Both hold
    after [__init__] and [set_gain] keeps them. *)
Definition ready (self : AudioEqualizer) : Prop :=
  sample_rate self <> 0
  /\ Forall (fun band : string * R => is_Some (gains self !! band.1)) (bands self).

(** A sequence of calls of [set_gain], first to last. *)
Fixpoint set_gains (self : AudioEqualizer) (settings : list (string * R))
    : result AudioEqualizer :=
  match settings with
  | [] => Ok self
  | (band_name, gain_db) :: settings' =>
      match set_gain self band_name gain_db with
      | Ok self' => set_gains self' settings'
      | Err e => Err e
      end
  end.

(** ** Blocks of a signal *)

(** The first [n] frames of a block. *)
Definition take_frames (n : nat) (arr : ndarray) : ndarray :=
  match arr with
  | Array1 samples => Array1 (take n samples)
  | Array2 ncols rows => Array2 ncols (take n rows)
  end.

(** The host hands the blocks to [apply_equalizer] one at a time; the
    object [self] is all that lives from one call to the next. *)
Fixpoint process_blocks (self : AudioEqualizer) (blocks : list ref)
    : M (list ref) :=
  match blocks with
  | [] => mret []
  | block :: blocks' =>
      out ← apply_equalizer self block;
      outs ← process_blocks self blocks';
      mret (out :: outs)
  end.

(** A new equalizer after [set_gain("6 kHz", 20.0)]. *)
Definition equalizer_6k_boost : AudioEqualizer :=
  with_gains AudioEqualizer_init
    (<["6 kHz"%string := 20]> (gains AudioEqualizer_init)).

(** ** The stream callback *)

(** Broadcasting of a vector along an axis of length [n], as numpy does when
    it assigns: a vector of that length is taken as it is, a vector of
    length one is repeated, any other does not fit. *)
Definition broadcast_axis {A : Type} (n : nat) (xs : list A) : option (list A) :=
  if decide (length xs = n) then Some xs
  else match xs with
       | [x] => Some (replicate n x)
       | _ => None
       end.

(** [dst[:] = src]: the contents of [dst] after the assignment, [None] when
    numpy cannot broadcast [src] to the shape of [dst].  A source with one
    dimension more than the destination fits only if its first dimension
    is one. *)
Definition assign_all (dst src : ndarray) : option ndarray :=
  match dst, src with
  | Array1 old, Array1 xs => Array1 <$> broadcast_axis (length old) xs
  | Array1 old, Array2 _ [row] => Array1 <$> broadcast_axis (length old) row
  | Array1 _, Array2 _ _ => None
  | Array2 ncols old, Array1 xs =>
      row ← broadcast_axis ncols xs;
      Some (Array2 ncols (replicate (length old) row))
  | Array2 ncols old, Array2 c rows =>
      if decide (c = ncols \/ c = 1%nat) then
        rows' ← broadcast_axis (length old) rows;
        Array2 ncols <$> mapM (broadcast_axis ncols) rows'
      else None
  end.

(** How a call of [audio_callback] ends: it returns, leaving a store, or an
    exception leaves it, one of [apply_equalizer] or the [ValueError] of an
    assignment that cannot be broadcast. *)
Inductive callback_outcome : Type :=
| Returned (st : store)
| Raised (e : exn)
| RaisedValueError.

(** [audio_callback(indata, outdata, frames, time, status)].  [frames] and
    [time] are not used by the method; the line it prints when [status] is
    set goes to the console, which the store does not hold. *)
Definition audio_callback (self : AudioEqualizer) (indata outdata : ref)
    (st : store) : callback_outcome :=
  match (copied ← ndarray_copy indata;
         processed ← apply_equalizer self copied;
         src ← load processed;
         dst ← load outdata;
         mret (src, dst)) st with
  | Err e => Raised e
  | Ok ((src, dst), st') =>
      match assign_all dst src with
      | Some arr => Returned (<[outdata := arr]> st')
      | None => RaisedValueError
      end
  end.

(** ** The reset button *)

(** What [EqualizerGUI.reset_all] does to the equalizer it owns: the keys
    of [self.sliders] are the band names, in the order of [self.eq.bands]
    (so [create_widgets] fills it), and the loop calls
    [self.eq.set_gain(band_name, 0)] for each.  The widgets are not
    modelled. *)
Definition reset_all (eq : AudioEqualizer) : result AudioEqualizer :=
  set_gains eq (map (fun band : string * R => (band.1, 0)) (bands eq)).

(** ** Blocks made from a block *)

(** The block with the polarity of every sample inverted. *)
Definition negate_array (arr : ndarray) : ndarray :=
  match arr with
  | Array1 samples => Array1 (map Ropp samples)
  | Array2 ncols rows => Array2 ncols (map (map Ropp) rows)
  end.

(** The block delayed by [k] frames of silence. *)
Definition delay_array (k : nat) (arr : ndarray) : ndarray :=
  match arr with
  | Array1 samples => Array1 (replicate k 0 ++ samples)
  | Array2 ncols rows => Array2 ncols (replicate k (replicate ncols 0) ++ rows)
  end.

(** ** Settings made from the control panel *)

(** An equalizer as [__init__] builds it (44100 Hz, Q = 1, the ten bands)
    whose gains all lie in the range of the sliders of the control panel,
    [from_=12, to=-12].  In this range the power [10 ** (gain_db / 20)]
    lies between one quarter and four, far from the overflow and the
    underflow of binary64, and every coefficient of every band is an
    ordinary number. *)
Definition slider_settings (self : AudioEqualizer) : Prop :=
  sample_rate self = 44100
  /\ q_factor self = 1
  /\ bands self = default_bands
  /\ Forall (fun band : string * R =>
               exists gain_db,
                 gains self !! band.1 = Some gain_db /\ -12 <= gain_db <= 12)
            default_bands.

(** * Properties *)

(** ** Reasoning about the store *)

Lemma run_bind {A B : Type} (m : M A) (k : A -> M B) (st : store) :
  (m ≫= k) st = match m st with Ok (a, st') => k a st' | Err e => Err e end.
Proof. reflexivity. Qed.

Lemma run_ret {A : Type} (a : A) (st : store) :
  (mret a : M A) st = Ok (a, st).
Proof. reflexivity. Qed.

Lemma run_load (r : ref) (st : store) (arr : ndarray) :
  st !! r = Some arr -> load r st = Ok (arr, st).
Proof. intros H. unfold load. by rewrite H. Qed.

Lemma run_write (r : ref) (st : store) (old arr : ndarray) :
  st !! r = Some old -> write r arr st = Ok (tt, <[r := arr]> st).
Proof. intros H. unfold write. by rewrite H. Qed.

(** The loop over the channels rewrites the array of [output] in place and
    touches nothing else. *)
Lemma run_filter_channels (b a : coeffs) (output : ref) (ncols : nat)
    (chs : list nat) (rows : list (list R)) (st : store) :
  st !! output = Some (Array2 ncols rows) ->
  for_each (fun _ ch => filter_channel b a output ch) chs tt st
  = Ok (tt, <[output := Array2 ncols (filter_columns b a chs rows)]> st).
Proof.
  revert rows st. induction chs as [|ch chs IH]; intros rows st Hst.
  - simpl. rewrite run_ret. f_equal. f_equal. symmetry. by apply list_insert_id.
  - simpl for_each. rewrite run_bind. unfold filter_channel at 1.
    rewrite run_bind, (run_load _ _ _ Hst).
    rewrite (run_write _ _ _ _ Hst).
    rewrite (IH (set_column ch (lfilter b a (get_column ch rows)) rows)).
    + rewrite list_insert_insert_eq. reflexivity.
    + apply list_lookup_insert_eq. by eapply lookup_lt_Some.
Qed.

(** One iteration of the loop over the bands, run on a store: it succeeds
    or fails as [band_contents] does; on success the new [output] holds the
    contents [band_contents] gives, it is not one of the first [n] arrays
    if [output] was not, and these [n] arrays are untouched. *)
Lemma run_apply_band (self : AudioEqualizer) (band : string * R)
    (n : nat) (output : ref) (arr : ndarray) (st : store) :
  (n <= output)%nat ->
  st !! output = Some arr ->
  match band_contents self arr band with
  | Ok arr' =>
      exists output' st',
        apply_band self output band st = Ok (output', st')
        /\ (n <= output')%nat
        /\ st' !! output' = Some arr'
        /\ forall r : ref, (r < n)%nat -> st' !! r = st !! r
  | Err e => apply_band self output band st = Err e
  end.
Proof.
  intros Hn Hst. destruct band as [band_name center_freq].
  unfold band_contents, apply_band, dict_get. cbn [fst snd].
  destruct (gains self !! band_name) as [gain_db|]; [|reflexivity].
  rewrite run_bind, run_ret.
  destruct (Rlt_dec (1 / 10) (Rabs gain_db)) as [Hbig|Hsmall].
  - rewrite run_bind. unfold lift.
    destruct (create_peak_filter self center_freq gain_db (q_factor self))
      as [[b a]|e]; [|reflexivity].
    rewrite run_bind, (run_load _ _ _ Hst).
    destruct arr as [samples|ncols rows]; cbn [filter_array].
    + exists (length st), (st ++ [Array1 (lfilter b a samples)]).
      split; [reflexivity|]. split.
      { apply lookup_lt_Some in Hst. lia. }
      split.
      { rewrite lookup_app_r by lia. by rewrite Nat.sub_diag. }
      intros r Hr. apply lookup_app_l.
      apply lookup_lt_Some in Hst. lia.
    + rewrite run_bind, (run_filter_channels _ _ _ _ _ _ _ Hst), run_ret.
      eexists _, _. split; [reflexivity|]. split; [exact Hn|]. split.
      { apply list_lookup_insert_eq. by eapply lookup_lt_Some. }
      intros r Hr. apply list_lookup_insert_ne. lia.
  - rewrite run_ret. exists output, st. auto.
Qed.

Lemma run_cascade (self : AudioEqualizer) (bs : list (string * R))
    (n : nat) (output : ref) (arr : ndarray) (st : store) :
  (n <= output)%nat ->
  st !! output = Some arr ->
  match cascade self bs arr with
  | Ok arr' =>
      exists output' st',
        for_each (apply_band self) bs output st = Ok (output', st')
        /\ (n <= output')%nat
        /\ st' !! output' = Some arr'
        /\ forall r : ref, (r < n)%nat -> st' !! r = st !! r
  | Err e => for_each (apply_band self) bs output st = Err e
  end.
Proof.
  revert output arr st. induction bs as [|band bs IH]; intros output arr st Hn Hst.
  - simpl. exists output, st. auto.
  - simpl cascade. simpl for_each. rewrite run_bind.
    pose proof (run_apply_band self band n output arr st Hn Hst) as Hband.
    destruct (band_contents self arr band) as [arr1|e].
    + destruct Hband as (output1 & st1 & -> & Hn1 & Hst1 & Hold1).
      specialize (IH output1 arr1 st1 Hn1 Hst1).
      destruct (cascade self bs arr1) as [arr2|e].
      * destruct IH as (output2 & st2 & -> & Hn2 & Hst2 & Hold2).
        exists output2, st2. repeat split; auto.
        intros r Hr. rewrite Hold2, Hold1; auto.
      * exact IH.
    + by rewrite Hband.
Qed.

(** [apply_equalizer] on a store: the call returns exactly when [equalized]
    gives contents, the returned reference then holds these contents, and
    every array the store held before the call is as it was. *)
Lemma run_apply_equalizer (self : AudioEqualizer) (audio_data : ref)
    (arr : ndarray) (st : store) :
  st !! audio_data = Some arr ->
  match equalized self arr with
  | Ok out =>
      exists output st',
        apply_equalizer self audio_data st = Ok (output, st')
        /\ (length st <= output)%nat
        /\ st' !! output = Some out
        /\ forall r : ref, (r < length st)%nat -> st' !! r = st !! r
  | Err e => apply_equalizer self audio_data st = Err e
  end.
Proof.
  intros Hst. unfold equalized, apply_equalizer, ndarray_copy.
  rewrite !run_bind, (run_load _ _ _ Hst).
  change (alloc arr st) with (@Ok (nat * list ndarray) (length st, st ++ [arr])).
  cbv iota beta.
  assert (Hcopy : (st ++ [arr]) !! length st = Some arr).
  { rewrite lookup_app_r by lia. by rewrite Nat.sub_diag. }
  pose proof (run_cascade self (bands self) (length st) (length st) arr
                (st ++ [arr]) (le_n _) Hcopy) as Hrun.
  destruct (cascade self (bands self) arr) as [arr'|e].
  - destruct Hrun as (output1 & st1 & Hrun & Hn1 & Hst1 & Hold1).
    rewrite run_bind, Hrun.
    unfold np_clip. rewrite run_bind, (run_load _ _ _ Hst1). unfold alloc.
    eexists _, _. split; [reflexivity|]. split.
    { apply lookup_lt_Some in Hst1. lia. }
    split.
    + rewrite lookup_app_r by lia. by rewrite Nat.sub_diag.
    + intros r Hr. apply lookup_lt_Some in Hst1.
      rewrite lookup_app_l by lia. rewrite Hold1 by lia.
      by apply lookup_app_l.
  - by rewrite run_bind, Hrun.
Qed.

(** ** When the cascade returns *)

Lemma ready_init : ready AudioEqualizer_init.
Proof.
  split.
  - simpl. lra.
  - unfold AudioEqualizer_init, default_bands. cbn [bands gains map fst].
    repeat (apply Forall_cons; split; [by vm_compute; eexists|]).
    apply Forall_nil_2.
Qed.

Lemma set_gain_ready (self self' : AudioEqualizer) (band_name : string)
    (gain_db : R) :
  set_gain self band_name gain_db = Ok self' ->
  ready self ->
  ready self' /\ bands self' = bands self
  /\ sample_rate self' = sample_rate self /\ q_factor self' = q_factor self.
Proof.
  unfold set_gain. intros Hset [Hrate Hkeys].
  destruct (decide (is_Some (gains self !! band_name))) as [Hin|Hout];
    injection Hset as <-; cbn; [|by repeat split].
  repeat split; try done. cbn.
  eapply Forall_impl; [exact Hkeys|]. intros band [v Hv]. cbn in *.
  destruct (decide (band_name = band.1)) as [->|Hne].
  - rewrite lookup_insert_eq. by eexists.
  - rewrite lookup_insert_ne by done. by eexists.
Qed.

Lemma set_gains_ready (settings : list (string * R)) (self : AudioEqualizer) :
  ready self ->
  exists self',
    set_gains self settings = Ok self'
    /\ ready self' /\ bands self' = bands self
    /\ sample_rate self' = sample_rate self /\ q_factor self' = q_factor self.
Proof.
  revert self. induction settings as [|[band_name gain_db] settings IH];
    intros self Hready.
  - exists self. simpl. auto.
  - simpl. destruct (set_gain self band_name gain_db) as [self1|e] eqn:Hset.
    + destruct (set_gain_ready _ _ _ _ Hset Hready) as (Hr1 & Hb1 & Hs1 & Hq1).
      destruct (IH self1 Hr1) as (self2 & -> & Hr2 & Hb2 & Hs2 & Hq2).
      exists self2. repeat split; try apply Hr2; congruence.
    + unfold set_gain in Hset. by destruct (decide _).
Qed.

Lemma create_peak_filter_returns (self : AudioEqualizer)
    (center_freq gain_db q : R) :
  sample_rate self <> 0 ->
  exists b a, create_peak_filter self center_freq gain_db q = Ok (b, a).
Proof.
  intros Hrate. unfold create_peak_filter, angular_frequency.
  destruct (Req_dec_T (sample_rate self) 0) as [Hz|_]; [done|].
  cbv zeta. unfold peak_coefficients. cbv zeta. by eexists _, _.
Qed.

Lemma band_contents_returns (self : AudioEqualizer) (arr : ndarray)
    (band : string * R) :
  sample_rate self <> 0 ->
  is_Some (gains self !! band.1) ->
  exists arr', band_contents self arr band = Ok arr'.
Proof.
  intros Hrate [gain_db Hgain]. unfold band_contents. rewrite Hgain.
  destruct (Rlt_dec (1 / 10) (Rabs gain_db)); [|by eexists].
  destruct (create_peak_filter_returns self band.2 gain_db (q_factor self) Hrate)
    as (b & a & ->).
  by eexists.
Qed.

Lemma cascade_returns (self : AudioEqualizer) (bs : list (string * R))
    (arr : ndarray) :
  sample_rate self <> 0 ->
  Forall (fun band : string * R => is_Some (gains self !! band.1)) bs ->
  exists arr', cascade self bs arr = Ok arr'.
Proof.
  intros Hrate Hkeys. revert arr.
  induction Hkeys as [|band bs Hband _ IH]; intros arr.
  - by eexists.
  - simpl. destruct (band_contents_returns self arr band Hrate Hband) as [arr1 ->].
    apply IH.
Qed.

Lemma equalized_returns (self : AudioEqualizer) (arr : ndarray) :
  ready self -> exists out, equalized self arr = Ok out.
Proof.
  intros [Hrate Hkeys]. unfold equalized.
  destruct (cascade_returns self (bands self) arr Hrate Hkeys) as [arr' ->].
  by eexists.
Qed.

(** ** Shapes and ranges *)

Lemma length_lfilter_from (b a : coeffs) (x : list R) (z0 z1 : R) :
  length (lfilter_from b a z0 z1 x) = length x.
Proof.
  revert z0 z1. induction x as [|xn x IH]; intros z0 z1; [done|].
  destruct b as [[b0 b1] b2], a as [[a0 a1] a2]. simpl. by rewrite IH.
Qed.

Lemma length_lfilter (b a : coeffs) (x : list R) :
  length (lfilter b a x) = length x.
Proof. apply length_lfilter_from. Qed.

Lemma length_get_column (ch : nat) (rows : list (list R)) :
  length (get_column ch rows) = length rows.
Proof. apply length_map. Qed.

Lemma length_set_column (ch : nat) (values : list R) (rows : list (list R)) :
  length values = length rows ->
  length (set_column ch values rows) = length rows.
Proof. intros H. unfold set_column. rewrite length_zip_with. lia. Qed.

Lemma set_column_row_lengths (ch ncols : nat) (values : list R)
    (rows : list (list R)) :
  Forall (fun row => length row = ncols) rows ->
  Forall (fun row => length row = ncols) (set_column ch values rows).
Proof.
  intros H. revert values. induction H as [|row rows Hrow _ IH]; intros values.
  - destruct values; constructor.
  - destruct values as [|v values]; [constructor|]. simpl. constructor.
    + by rewrite length_insert.
    + apply IH.
Qed.

Lemma length_filter_columns (b a : coeffs) (chs : list nat)
    (rows : list (list R)) :
  length (filter_columns b a chs rows) = length rows.
Proof.
  revert rows. induction chs as [|ch chs IH]; intros rows; [done|].
  simpl. rewrite IH. apply length_set_column.
  by rewrite length_lfilter, length_get_column.
Qed.

Lemma filter_columns_row_lengths (b a : coeffs) (chs : list nat) (ncols : nat)
    (rows : list (list R)) :
  Forall (fun row => length row = ncols) rows ->
  Forall (fun row => length row = ncols) (filter_columns b a chs rows).
Proof.
  revert rows. induction chs as [|ch chs IH]; intros rows H; [done|].
  simpl. apply IH. by apply set_column_row_lengths.
Qed.

Lemma shape_filter_array (b a : coeffs) (arr : ndarray) :
  shape (filter_array b a arr) = shape arr.
Proof.
  destruct arr as [samples|ncols rows]; simpl.
  - by rewrite length_lfilter.
  - by rewrite length_filter_columns.
Qed.

Lemma rectangular_filter_array (b a : coeffs) (arr : ndarray) :
  rectangular arr -> rectangular (filter_array b a arr).
Proof.
  destruct arr as [samples|ncols rows]; simpl; [done|].
  apply filter_columns_row_lengths.
Qed.

Lemma shape_clip_array (lo hi : R) (arr : ndarray) :
  shape (clip_array lo hi arr) = shape arr.
Proof. destruct arr; simpl; by rewrite length_map. Qed.

Lemma rectangular_clip_array (lo hi : R) (arr : ndarray) :
  rectangular arr -> rectangular (clip_array lo hi arr).
Proof.
  destruct arr as [samples|ncols rows]; simpl; [done|].
  intros H. apply Forall_map. eapply Forall_impl; [exact H|].
  intros row Hrow. simpl. by rewrite length_map.
Qed.

Lemma clip_in_range (lo hi x : R) : lo <= hi -> lo <= clip lo hi x <= hi.
Proof.
  intros H. unfold clip, Rmin, Rmax.
  destruct (Rle_dec x lo); destruct (Rle_dec _ hi); lra.
Qed.

Lemma clip_array_in_range (lo hi : R) (arr : ndarray) :
  lo <= hi -> all_samples (fun v => lo <= v <= hi) (clip_array lo hi arr).
Proof.
  intros H. destruct arr as [samples|ncols rows]; simpl.
  - apply Forall_map, Forall_forall. intros x _. by apply clip_in_range.
  - apply Forall_map, Forall_forall. intros row _.
    apply Forall_map, Forall_forall. intros x _. by apply clip_in_range.
Qed.

Lemma band_contents_shape (self : AudioEqualizer) (arr arr' : ndarray)
    (band : string * R) :
  band_contents self arr band = Ok arr' ->
  shape arr' = shape arr /\ (rectangular arr -> rectangular arr').
Proof.
  unfold band_contents. destruct (gains self !! band.1) as [gain_db|]; [|done].
  destruct (Rlt_dec (1 / 10) (Rabs gain_db)).
  - destruct (create_peak_filter _ _ _ _) as [[b a]|]; [|done].
    intros [= <-]. split; [apply shape_filter_array|apply rectangular_filter_array].
  - by intros [= <-].
Qed.

Lemma cascade_shape (self : AudioEqualizer) (bs : list (string * R))
    (arr arr' : ndarray) :
  cascade self bs arr = Ok arr' ->
  shape arr' = shape arr /\ (rectangular arr -> rectangular arr').
Proof.
  revert arr. induction bs as [|band bs IH]; intros arr; simpl.
  - by intros [= <-].
  - destruct (band_contents self arr band) as [arr1|] eqn:Hband; [|done].
    intros Hrest. destruct (band_contents_shape _ _ _ _ Hband) as [Hs1 Hr1].
    destruct (IH _ Hrest) as [Hs2 Hr2]. split; [congruence|auto].
Qed.

(** ** The block returned by [apply_equalizer] *)

Lemma cascade_all_zero (self : AudioEqualizer) (bs : list (string * R))
    (arr : ndarray) :
  Forall (fun band : string * R => gains self !! band.1 = Some 0) bs ->
  cascade self bs arr = Ok arr.
Proof.
  induction 1 as [|band bs Hband _ IH]; [done|].
  simpl. unfold band_contents. rewrite Hband.
  destruct (Rlt_dec (1 / 10) (Rabs 0)) as [Hbig|_]; [|exact IH].
  rewrite Rabs_R0 in Hbig. lra.
Qed.

(** C7.  When the gain of every band is 0 dB, [apply_equalizer] returns the
    input block clipped to [[-1, 1]], sample by sample. *)
Theorem apply_equalizer_all_gains_zero (self : AudioEqualizer)
    (audio_data : ref) (arr : ndarray) (st : store) :
  Forall (fun band : string * R => gains self !! band.1 = Some 0) (bands self) ->
  st !! audio_data = Some arr ->
  exists output st',
    apply_equalizer self audio_data st = Ok (output, st')
    /\ st' !! output = Some (clip_array (-1) 1 arr).
Proof.
  intros Hzero Hst.
  pose proof (run_apply_equalizer self audio_data arr st Hst) as Hrun.
  unfold equalized in Hrun. rewrite (cascade_all_zero _ _ _ Hzero) in Hrun.
  destruct Hrun as (output & st' & Hcall & _ & Hout & _). by exists output, st'.
Qed.

Lemma apply_equalizer_all_gains_zero_witness :
  exists output st',
    apply_equalizer AudioEqualizer_init 0%nat [Array2 2 [[3; -1 / 2]; [0; -2]]]
    = Ok (output, st')
    /\ st' !! output
       = Some (clip_array (-1) 1 (Array2 2 [[3; -1 / 2]; [0; -2]])).
Proof.
  apply apply_equalizer_all_gains_zero.
  - unfold AudioEqualizer_init, default_bands. cbn [bands gains map fst].
    repeat (apply Forall_cons; split; [by vm_compute|]).
    apply Forall_nil_2.
  - reflexivity.
Defined.

(** C9.  On every block, one- or two-dimensional, with any number of frames
    and of channels, [apply_equalizer] returns a block of the same shape:
    as many frames, and as many channels in every frame. *)
Theorem apply_equalizer_keeps_shape (self : AudioEqualizer)
    (audio_data : ref) (arr : ndarray) (st : store) :
  ready self ->
  rectangular arr ->
  st !! audio_data = Some arr ->
  exists output st' out,
    apply_equalizer self audio_data st = Ok (output, st')
    /\ st' !! output = Some out
    /\ shape out = shape arr
    /\ rectangular out.
Proof.
  intros [Hrate Hkeys] Hrect Hst.
  pose proof (run_apply_equalizer self audio_data arr st Hst) as Hrun.
  unfold equalized in Hrun.
  destruct (cascade_returns self (bands self) arr Hrate Hkeys) as [arr' Harr'].
  rewrite Harr' in Hrun. destruct Hrun as (output & st' & Hcall & _ & Hout & _).
  destruct (cascade_shape _ _ _ _ Harr') as [Hshape Hrect'].
  exists output, st', (clip_array (-1) 1 arr'). repeat split; try done.
  - by rewrite shape_clip_array.
  - by apply rectangular_clip_array, Hrect'.
Qed.

Lemma apply_equalizer_keeps_shape_witness :
  exists output st' out,
    apply_equalizer AudioEqualizer_init 0%nat [Array2 2 [[3; -1 / 2]; [0; -2]]]
    = Ok (output, st')
    /\ st' !! output = Some out
    /\ shape out = [2%nat; 2%nat]
    /\ rectangular out.
Proof.
  apply (apply_equalizer_keeps_shape AudioEqualizer_init 0%nat
           (Array2 2 [[3; -1 / 2]; [0; -2]])).
  - exact ready_init.
  - simpl. repeat constructor.
  - reflexivity.
Defined.

(** C10.  [apply_equalizer] does not change its argument: it returns on
    every block (for an equalizer whose gain table covers its bands), and
    whenever it returns, the array it was given, like every other array
    that existed before the call, holds the samples it held before; the
    returned array is a new one. *)
Theorem apply_equalizer_keeps_input (self : AudioEqualizer)
    (audio_data : ref) (arr : ndarray) (st : store) :
  st !! audio_data = Some arr ->
  (ready self -> exists output st',
      apply_equalizer self audio_data st = Ok (output, st'))
  /\ (forall output st',
        apply_equalizer self audio_data st = Ok (output, st') ->
        st' !! audio_data = Some arr
        /\ output <> audio_data
        /\ forall r : ref, (r < length st)%nat -> st' !! r = st !! r).
Proof.
  intros Hst.
  pose proof (run_apply_equalizer self audio_data arr st Hst) as Hrun.
  split.
  - intros Hready. destruct (equalized_returns self arr Hready) as [out Hout].
    rewrite Hout in Hrun. destruct Hrun as (output & st' & Hcall & _).
    by exists output, st'.
  - intros output st' Hcall.
    destruct (equalized self arr) as [out|e]; [|congruence].
    destruct Hrun as (output1 & st1 & Hcall1 & Hnew & Hout & Hold).
    rewrite Hcall in Hcall1. injection Hcall1 as <- <-.
    assert (Hlt : (audio_data < length st)%nat) by by eapply lookup_lt_Some.
    split; [by rewrite Hold|]. split; [lia|exact Hold].
Qed.

Lemma apply_equalizer_keeps_input_witness :
  (ready AudioEqualizer_init -> exists output st',
      apply_equalizer AudioEqualizer_init 0%nat [Array1 [2; 0; -3]]
      = Ok (output, st'))
  /\ (forall output st',
        apply_equalizer AudioEqualizer_init 0%nat [Array1 [2; 0; -3]]
        = Ok (output, st') ->
        st' !! 0%nat = Some (Array1 [2; 0; -3])
        /\ output <> 0%nat
        /\ forall r : ref, (r < 1)%nat -> st' !! r = [Array1 [2; 0; -3]] !! r).
Proof.
  apply (apply_equalizer_keeps_input AudioEqualizer_init 0%nat
           (Array1 [2; 0; -3]) [Array1 [2; 0; -3]]).
  reflexivity.
Defined.

(** ** The gain table *)

(** C2, as stated, fails: the call [set_gain("not-a-band", 3.0)] on a new
    equalizer returns normally, with the object as it was; no [UnknownBand]
    error is signalled. *)
Lemma unknown_band_returns_normally :
  gains AudioEqualizer_init !! "not-a-band"%string = None
  /\ set_gain AudioEqualizer_init "not-a-band" 3 = Ok AudioEqualizer_init
  /\ set_gain AudioEqualizer_init "not-a-band" 3 <> Err UnknownBand.
Proof.
  assert (H : gains AudioEqualizer_init !! "not-a-band"%string = None)
    by by vm_compute.
  split; [exact H|].
  assert (Hcall : set_gain AudioEqualizer_init "not-a-band" 3
                  = Ok AudioEqualizer_init).
  { unfold set_gain. destruct (decide _) as [[v Hv]|_]; [congruence|done]. }
  split; [exact Hcall|]. by rewrite Hcall.
Qed.

(** C2, amended.  For every label that is not a key of the gain table,
    [set_gain] returns normally, without any error, and leaves the gain
    table, and the whole object, unchanged. *)
Theorem set_gain_unknown_band (self : AudioEqualizer) (band_name : string)
    (gain_db : R) :
  gains self !! band_name = None ->
  set_gain self band_name gain_db = Ok self.
Proof.
  intros Hnone. unfold set_gain.
  destruct (decide _) as [[v Hv]|_]; [congruence|done].
Qed.

Lemma set_gain_unknown_band_witness :
  set_gain AudioEqualizer_init "not-a-band" 3 = Ok AudioEqualizer_init.
Proof.
  apply (set_gain_unknown_band AudioEqualizer_init "not-a-band" 3).
  by vm_compute.
Defined.

(** ** Coefficient synthesis *)

Lemma Rpower_10_pos (x : R) : 0 < Rpower 10 x.
Proof. unfold Rpower. apply exp_pos. Qed.

Lemma angular_frequency_in_range (self : AudioEqualizer) (center_freq : R) :
  0 < sample_rate self ->
  0 < center_freq < sample_rate self / 2 ->
  exists w0, angular_frequency self center_freq = Ok w0 /\ 0 < w0 < PI.
Proof.
  intros Hfs [Hlo Hhi]. unfold angular_frequency.
  destruct (Req_dec_T (sample_rate self) 0) as [Hz|_]; [lra|].
  eexists. split; [reflexivity|].
  pose proof PI_RGT_0 as Hpi.
  assert (Hq : 0 < center_freq / sample_rate self < 1 / 2).
  { split.
    - by apply Rdiv_lt_0_compat.
    - apply (Rmult_lt_reg_r (sample_rate self)); [done|].
      unfold Rdiv at 1. rewrite Rmult_assoc, Rinv_l by lra. lra. }
  replace (2 * PI * center_freq / sample_rate self)
    with (2 * PI * (center_freq / sample_rate self)) by (unfold Rdiv; ring).
  split; nra.
Qed.

(** C3, as stated, fails: with the centre frequency 0, which is outside
    [(0, fs/2)], the synthesis returns coefficients and signals no
    error. *)
Lemma out_of_range_frequency_accepted :
  ~ (0 < 0 < sample_rate AudioEqualizer_init / 2)
  /\ create_peak_filter AudioEqualizer_init 0 0 1 = Ok ((1, -2, 1), (1, -2, 1))
  /\ create_peak_filter AudioEqualizer_init 0 0 1 <> Err InvalidParameter.
Proof.
  split; [lra|].
  assert (H : create_peak_filter AudioEqualizer_init 0 0 1
              = Ok ((1, -2, 1), (1, -2, 1))).
  { unfold create_peak_filter, angular_frequency. cbn [sample_rate AudioEqualizer_init].
    destruct (Req_dec_T 44100 0) as [Hz|_]; [lra|].
    unfold peak_coefficients. cbv zeta.
    replace (2 * PI * 0 / 44100) with 0 by (unfold Rdiv; ring).
    replace (0 / 20) with 0 by (unfold Rdiv; ring).
    rewrite sin_0, cos_0, Rpower_O by lra.
    f_equal. f_equal; f_equal; try f_equal; field. }
  split; [exact H|]. by rewrite H.
Qed.

(** C3, amended.  The synthesis checks nothing: for a centre frequency
    outside [(0, fs/2)] it signals no error and returns coefficients,
    provided the sample rate is not zero and the gain is at most 6160 dB
    (so that [10 ** (gain_db / 20)], at most [10 ** 308], is within the
    range of binary64 and raises no [OverflowError]). *)
Theorem create_peak_filter_out_of_range (self : AudioEqualizer)
    (center_freq gain_db q : R) :
  sample_rate self <> 0 ->
  gain_db <= 6160 ->
  ~ (0 < center_freq < sample_rate self / 2) ->
  exists b a, create_peak_filter self center_freq gain_db q = Ok (b, a).
Proof.
  intros Hrate _ _. by apply create_peak_filter_returns.
Qed.

Lemma create_peak_filter_out_of_range_witness :
  exists b a, create_peak_filter AudioEqualizer_init 30000 6 1 = Ok (b, a).
Proof.
  apply (create_peak_filter_out_of_range AudioEqualizer_init 30000 6 1);
    simpl; lra.
Defined.

(** C8.  For a positive sample rate, a centre frequency strictly between 0
    and half the sample rate, a positive Q and any gain in dB, the
    synthesis reaches the normalisation and the unnormalised coefficient
    [a0 = 1 + alpha / A] is strictly positive (it is above 1), hence not
    zero. *)
Theorem peak_a0_positive (self : AudioEqualizer) (center_freq gain_db q : R) :
  0 < sample_rate self ->
  0 < center_freq < sample_rate self / 2 ->
  0 < q ->
  exists w0,
    angular_frequency self center_freq = Ok w0
    /\ (exists b a, create_peak_filter self center_freq gain_db q = Ok (b, a))
    /\ 1 < peak_a0 w0 gain_db q
    /\ peak_a0 w0 gain_db q <> 0.
Proof.
  intros Hfs Hf Hq.
  destruct (angular_frequency_in_range self center_freq Hfs Hf)
    as (w0 & Hw0 & Hlo & Hhi).
  exists w0. split; [exact Hw0|].
  split; [apply create_peak_filter_returns; lra|].
  assert (Ha0 : 1 < peak_a0 w0 gain_db q).
  { unfold peak_a0, peak_coefficients. cbv zeta.
    pose proof (sin_gt_0 w0 Hlo Hhi) as Hsin.
    pose proof (Rpower_10_pos (gain_db / 20)) as HA.
    assert (0 < sin w0 / (2 * q)) by (apply Rdiv_lt_0_compat; lra).
    assert (0 < sin w0 / (2 * q) / Rpower 10 (gain_db / 20))
      by (by apply Rdiv_lt_0_compat).
    lra. }
  split; [exact Ha0|lra].
Qed.

Lemma peak_a0_positive_witness :
  exists w0,
    angular_frequency AudioEqualizer_init 1000 = Ok w0
    /\ (exists b a, create_peak_filter AudioEqualizer_init 1000 (-12) 1 = Ok (b, a))
    /\ 1 < peak_a0 w0 (-12) 1
    /\ peak_a0 w0 (-12) 1 <> 0.
Proof.
  apply (peak_a0_positive AudioEqualizer_init 1000 (-12) 1); simpl; lra.
Defined.

Lemma lfilter_from_same_coeffs (c : coeffs) (x : list R) :
  c.1.1 <> 0 -> lfilter_from c c 0 0 x = x.
Proof.
  destruct c as [[c0 c1] c2]. cbn [fst]. intros Hc0.
  induction x as [|xn x IH]; [done|].
  cbn [lfilter_from].
  replace (c0 / c0 * xn + 0) with xn by (field; exact Hc0).
  replace (c1 / c0 * xn - c1 / c0 * xn + 0) with 0 by (field; exact Hc0).
  replace (c2 / c0 * xn - c2 / c0 * xn) with 0 by (field; exact Hc0).
  by rewrite IH.
Qed.

(** The coefficients of a band at 0 dB: numerator and denominator are the
    same triple, headed by 1. *)
Lemma zero_gain_coefficients (self : AudioEqualizer) (center_freq q : R) :
  0 < sample_rate self ->
  0 < center_freq < sample_rate self / 2 ->
  0 < q ->
  exists w0 a1 a2,
    angular_frequency self center_freq = Ok w0
    /\ 0 < w0 < PI
    /\ a1 = -2 * cos w0 / (1 + sin w0 / (2 * q))
    /\ a2 = (1 - sin w0 / (2 * q)) / (1 + sin w0 / (2 * q))
    /\ create_peak_filter self center_freq 0 q = Ok ((1, a1, a2), (1, a1, a2)).
Proof.
  intros Hfs Hf Hq.
  destruct (angular_frequency_in_range self center_freq Hfs Hf)
    as (w0 & Hw0 & Hlo & Hhi).
  exists w0. eexists _, _. split; [exact Hw0|]. split; [done|].
  split; [reflexivity|]. split; [reflexivity|].
  unfold create_peak_filter. rewrite Hw0. unfold peak_coefficients. cbv zeta.
  replace (0 / 20) with 0 by (unfold Rdiv; ring).
  rewrite Rpower_O by lra.
  pose proof (sin_gt_0 w0 Hlo Hhi) as Hsin.
  assert (0 < sin w0 / (2 * q)) by (apply Rdiv_lt_0_compat; lra).
  f_equal. f_equal; f_equal; try f_equal; field; lra.
Qed.

(** C4, as stated, fails: for the 1 kHz band of a new equalizer (44100 Hz,
    Q = 1) at 0 dB, the normalised coefficients are not [b = (1, 0, 0)],
    [a = (1, 0, 0)], nor close to them: [b1] and [a1] are the same number,
    below [-2/3]. *)
Lemma zero_gain_coefficients_not_unit :
  0 < sample_rate AudioEqualizer_init
  /\ 0 < 1000 < sample_rate AudioEqualizer_init / 2
  /\ 0 < q_factor AudioEqualizer_init
  /\ create_peak_filter AudioEqualizer_init 1000 0 (q_factor AudioEqualizer_init)
     <> Ok ((1, 0, 0), (1, 0, 0))
  /\ exists b0 b1 b2 a1 a2,
      create_peak_filter AudioEqualizer_init 1000 0 (q_factor AudioEqualizer_init)
      = Ok ((b0, b1, b2), (1, a1, a2))
      /\ b1 <= - (2 / 3) /\ a1 <= - (2 / 3).
Proof.
  assert (Hfs : 0 < sample_rate AudioEqualizer_init) by (simpl; lra).
  assert (Hf : 0 < 1000 < sample_rate AudioEqualizer_init / 2) by (simpl; lra).
  assert (Hq : 0 < q_factor AudioEqualizer_init) by (simpl; lra).
  repeat (split; [done|]).
  destruct (zero_gain_coefficients _ _ _ Hfs Hf Hq)
    as (w0 & a1 & a2 & Hw0 & [Hlo Hhi] & Ha1 & _ & ->).
  unfold angular_frequency in Hw0. cbn [sample_rate AudioEqualizer_init] in Hw0.
  destruct (Req_dec_T 44100 0) as [Hz|_]; [lra|]. injection Hw0 as Hw0.
  pose proof PI_RGT_0 as Hpi.
  assert (Hcos : 1 / 2 <= cos w0).
  { rewrite <- cos_PI3. apply cos_decr_1; lra. }
  pose proof (sin_gt_0 w0 Hlo Hhi) as Hsin.
  pose proof (SIN_bound w0) as [_ Hsin1].
  cbn [q_factor AudioEqualizer_init] in Ha1.
  assert (Hbound : a1 <= - (2 / 3)).
  { rewrite Ha1.
    apply (Rmult_le_reg_r (1 + sin w0 / (2 * 1))); [lra|].
    unfold Rdiv at 1. rewrite Rmult_assoc, Rinv_l by lra. lra. }
  split.
  - intros [= Hzero _]. lra.
  - by exists 1, a1, a2, a1, a2.
Qed.

(** C4, amended.  For a positive sample rate, a centre frequency strictly
    between 0 and half the sample rate, a positive Q and the gain 0 dB, the
    normalised numerator equals the normalised denominator:
    [b0 = 1], [b1 = a1], [b2 = a2] (with [a1] and [a2] as the formulas give
    them, in general not zero), so that the section is the identity
    transform: filtering any signal with these coefficients returns the
    signal. *)
Theorem create_peak_filter_zero_gain_identity (self : AudioEqualizer)
    (center_freq q : R) :
  0 < sample_rate self ->
  0 < center_freq < sample_rate self / 2 ->
  0 < q ->
  exists a1 a2,
    create_peak_filter self center_freq 0 q = Ok ((1, a1, a2), (1, a1, a2))
    /\ forall x : list R, lfilter (1, a1, a2) (1, a1, a2) x = x.
Proof.
  intros Hfs Hf Hq.
  destruct (zero_gain_coefficients _ _ _ Hfs Hf Hq)
    as (w0 & a1 & a2 & _ & _ & _ & _ & Hcall).
  exists a1, a2. split; [exact Hcall|].
  intros x. apply lfilter_from_same_coeffs. cbn. lra.
Qed.

Lemma create_peak_filter_zero_gain_identity_witness :
  exists a1 a2,
    create_peak_filter AudioEqualizer_init 1000 0 1 = Ok ((1, a1, a2), (1, a1, a2))
    /\ forall x : list R, lfilter (1, a1, a2) (1, a1, a2) x = x.
Proof.
  apply (create_peak_filter_zero_gain_identity AudioEqualizer_init 1000 1);
    simpl; lra.
Defined.

(** ** The skip policy *)

Lemma Rpower_10_eq_1 (x : R) : Rpower 10 x = 1 -> x = 0.
Proof.
  intros H. destruct (Rtotal_order x 0) as [Hneg|[Hz|Hpos]]; [|exact Hz|].
  - pose proof (Rpower_lt 10 x 0 ltac:(lra) Hneg) as Hlt.
    rewrite Rpower_O in Hlt by lra. lra.
  - pose proof (Rpower_lt 10 0 x ltac:(lra) Hpos) as Hlt.
    rewrite Rpower_O in Hlt by lra. lra.
Qed.

(** The first normalised coefficient [b0 / a0] of a band whose gain is not
    0 dB is not 1. *)
Lemma peak_b0_not_a0 (w0 gain_db q : R) :
  0 < w0 < PI -> 0 < q -> gain_db <> 0 ->
  let '(b0, _, _, a0, _, _) := peak_coefficients w0 gain_db q in
  0 < a0 /\ b0 / a0 <> 1.
Proof.
  intros [Hlo Hhi] Hq Hgain. unfold peak_coefficients. cbv zeta.
  pose proof (sin_gt_0 w0 Hlo Hhi) as Hsin.
  pose proof (Rpower_10_pos (gain_db / 20)) as HA.
  set (A := Rpower 10 (gain_db / 20)) in *.
  set (alpha := sin w0 / (2 * q)).
  assert (Halpha : 0 < alpha) by (apply Rdiv_lt_0_compat; lra).
  assert (HaA : 0 < alpha / A) by (by apply Rdiv_lt_0_compat).
  split; [lra|]. intros Heq.
  assert (Hsame : 1 + alpha * A = 1 + alpha / A).
  { apply (Rmult_eq_reg_r (/ (1 + alpha / A))).
    - fold (Rdiv (1 + alpha * A) (1 + alpha / A)). rewrite Heq.
      rewrite Rinv_r; lra.
    - apply Rinv_neq_0_compat. lra. }
  assert (HA2 : A * A = 1).
  { assert (Hm : alpha * A * A = alpha).
    { replace alpha with (alpha / A * A) at 2 by (field; lra). nra. }
    nra. }
  assert (HA1 : A = 1) by nra.
  apply Hgain. apply Rpower_10_eq_1 in HA1. lra.
Qed.

(** C6.  In the loop over the bands of [apply_equalizer], a band is skipped
    exactly when the absolute value of its gain in dB is at most 0.1: with
    such a gain the iteration leaves the variable [output] and every array
    as they are; with a larger one the block is filtered with the
    coefficients of the band, and (for a band with a centre frequency
    strictly between 0 and half a positive sample rate and a positive Q)
    this is not the identity: it changes the one-sample block [[1]]. *)
Theorem apply_band_skips_small_gain (self : AudioEqualizer)
    (band_name : string) (center_freq gain_db : R) :
  gains self !! band_name = Some gain_db ->
  (Rabs gain_db <= 1 / 10 ->
   forall (output : ref) (st : store),
     apply_band self output (band_name, center_freq) st = Ok (output, st))
  /\ (1 / 10 < Rabs gain_db ->
      forall (b a : coeffs) (output : ref) (st : store) (arr : ndarray),
        create_peak_filter self center_freq gain_db (q_factor self) = Ok (b, a) ->
        st !! output = Some arr ->
        exists output' st',
          apply_band self output (band_name, center_freq) st = Ok (output', st')
          /\ st' !! output' = Some (filter_array b a arr))
  /\ (1 / 10 < Rabs gain_db ->
      0 < sample_rate self ->
      0 < center_freq < sample_rate self / 2 ->
      0 < q_factor self ->
      exists y,
        y <> 1
        /\ apply_band self 0%nat (band_name, center_freq) [Array1 [1]]
           = Ok (1%nat, [Array1 [1]; Array1 [y]])).
Proof.
  intros Hgain. split; [|split].
  - intros Hsmall output st. unfold apply_band, dict_get. rewrite Hgain.
    rewrite run_bind, run_ret.
    destruct (Rlt_dec (1 / 10) (Rabs gain_db)) as [Hbig|_]; [lra|done].
  - intros Hbig b a output st arr Hcoeffs Hst.
    pose proof (run_apply_band self (band_name, center_freq) 0 output arr st
                  (Nat.le_0_l _) Hst) as Hrun.
    unfold band_contents in Hrun. cbn [fst snd] in Hrun.
    rewrite Hgain, Hcoeffs in Hrun.
    destruct (Rlt_dec (1 / 10) (Rabs gain_db)) as [_|Hsmall]; [|lra].
    destruct Hrun as (output' & st' & Hcall & _ & Hout & _).
    by exists output', st'.
  - intros Hbig Hfs Hf Hq.
    destruct (angular_frequency_in_range self center_freq Hfs Hf)
      as (w0 & Hw0 & Hrange).
    assert (Hnz : gain_db <> 0).
    { intros ->. rewrite Rabs_R0 in Hbig. lra. }
    pose proof (peak_b0_not_a0 w0 gain_db (q_factor self) Hrange Hq Hnz) as Hb0.
    unfold apply_band, dict_get. rewrite Hgain. rewrite run_bind, run_ret.
    destruct (Rlt_dec (1 / 10) (Rabs gain_db)) as [_|Hsmall]; [|lra].
    unfold create_peak_filter. rewrite Hw0.
    destruct (peak_coefficients w0 gain_db (q_factor self))
      as [[[[[b0 b1] b2] a0] a1] a2].
    destruct Hb0 as [Ha0 Hne].
    exists (b0 / a0). split; [exact Hne|].
    cbv zeta. unfold lift. rewrite run_bind. cbv iota beta.
    rewrite run_bind. unfold load. cbn [lookup list_lookup].
    unfold alloc, lfilter. cbn [lfilter_from length app].
    replace (b0 / a0 / 1 * 1 + 0) with (b0 / a0) by (field; lra).
    reflexivity.
Qed.

Lemma apply_band_skips_small_gain_witness :
  exists y,
    y <> 1
    /\ apply_band
         (with_gains AudioEqualizer_init
            (<["1 kHz"%string := 6]> (gains AudioEqualizer_init)))
         0%nat ("1 kHz"%string, 1000) [Array1 [1]]
       = Ok (1%nat, [Array1 [1]; Array1 [y]]).
Proof.
  refine (proj2 (proj2 (apply_band_skips_small_gain
            (with_gains AudioEqualizer_init
               (<["1 kHz"%string := 6]> (gains AudioEqualizer_init)))
            "1 kHz" 1000 6 _)) _ _ _ _).
  - by vm_compute.
  - rewrite Rabs_right; lra.
  - simpl; lra.
  - simpl; lra.
  - simpl; lra.
Defined.

(** ** Processing a signal block by block *)

Lemma take_lfilter_from (b a : coeffs) (n : nat) (x : list R) (z0 z1 : R) :
  take n (lfilter_from b a z0 z1 x) = lfilter_from b a z0 z1 (take n x).
Proof.
  revert n z0 z1. induction x as [|xn x IH]; intros n z0 z1.
  - by destruct n.
  - destruct n as [|n]; [done|].
    destruct b as [[b0 b1] b2], a as [[a0 a1] a2]. simpl. by rewrite IH.
Qed.

Lemma take_filter_columns (b a : coeffs) (chs : list nat) (n : nat)
    (rows : list (list R)) :
  take n (filter_columns b a chs rows) = filter_columns b a chs (take n rows).
Proof.
  revert rows. induction chs as [|ch chs IH]; intros rows; [done|].
  simpl. rewrite IH. f_equal. unfold set_column, get_column, lfilter.
  by rewrite zip_with_take, take_lfilter_from, firstn_map.
Qed.

Lemma take_frames_filter_array (b a : coeffs) (n : nat) (arr : ndarray) :
  take_frames n (filter_array b a arr) = filter_array b a (take_frames n arr).
Proof.
  destruct arr as [samples|ncols rows]; simpl.
  - unfold lfilter. by rewrite take_lfilter_from.
  - by rewrite take_filter_columns.
Qed.

Lemma take_frames_clip_array (lo hi : R) (n : nat) (arr : ndarray) :
  take_frames n (clip_array lo hi arr) = clip_array lo hi (take_frames n arr).
Proof. destruct arr; simpl; by rewrite firstn_map. Qed.

Lemma cascade_take_frames (self : AudioEqualizer) (bs : list (string * R))
    (n : nat) (arr arr' : ndarray) :
  cascade self bs arr = Ok arr' ->
  cascade self bs (take_frames n arr) = Ok (take_frames n arr').
Proof.
  revert arr. induction bs as [|band bs IH]; intros arr; simpl.
  - by intros [= <-].
  - unfold band_contents.
    destruct (gains self !! band.1) as [gain_db|]; [|done].
    destruct (Rlt_dec (1 / 10) (Rabs gain_db)); [|apply IH].
    destruct (create_peak_filter _ _ _ _) as [[b a]|]; [|done].
    rewrite <- take_frames_filter_array. apply IH.
Qed.

Lemma equalized_take_frames (self : AudioEqualizer) (n : nat)
    (arr out : ndarray) :
  equalized self arr = Ok out ->
  equalized self (take_frames n arr) = Ok (take_frames n out).
Proof.
  unfold equalized.
  destruct (cascade self (bands self) arr) as [arr'|] eqn:Hc; [|done].
  intros [= <-]. rewrite (cascade_take_frames _ _ n _ _ Hc).
  by rewrite take_frames_clip_array.
Qed.

(** C1, amended.  [apply_equalizer] keeps no filter history: each call
    filters its block from a zero state, whatever was processed before.
    So the first block of a signal, processed alone in any store, comes out
    as the first frames of the signal processed as one block; for the later
    blocks nothing of the kind is promised. *)
Theorem apply_equalizer_first_block (self : AudioEqualizer) (n : nat)
    (signal block : ref) (arr : ndarray) (st_signal st_block : store) :
  ready self ->
  st_signal !! signal = Some arr ->
  st_block !! block = Some (take_frames n arr) ->
  exists out_signal st_signal' out_block st_block' out,
    apply_equalizer self signal st_signal = Ok (out_signal, st_signal')
    /\ st_signal' !! out_signal = Some out
    /\ apply_equalizer self block st_block = Ok (out_block, st_block')
    /\ st_block' !! out_block = Some (take_frames n out).
Proof.
  intros Hready Hsignal Hblock.
  destruct (equalized_returns self arr Hready) as [out Hout].
  pose proof (run_apply_equalizer self signal arr st_signal Hsignal) as Hrun1.
  pose proof (run_apply_equalizer self block _ st_block Hblock) as Hrun2.
  rewrite Hout in Hrun1. rewrite (equalized_take_frames _ n _ _ Hout) in Hrun2.
  destruct Hrun1 as (o1 & s1 & Hcall1 & _ & Hres1 & _).
  destruct Hrun2 as (o2 & s2 & Hcall2 & _ & Hres2 & _).
  by exists o1, s1, o2, s2, out.
Qed.

Lemma apply_equalizer_first_block_witness :
  exists out_signal st_signal' out_block st_block' out,
    apply_equalizer equalizer_6k_boost 0%nat [Array1 [1; 0]]
    = Ok (out_signal, st_signal')
    /\ st_signal' !! out_signal = Some out
    /\ apply_equalizer equalizer_6k_boost 1%nat [Array1 [1; 0]; Array1 [1]]
       = Ok (out_block, st_block')
    /\ st_block' !! out_block = Some (take_frames 1 out).
Proof.
  apply (apply_equalizer_first_block equalizer_6k_boost 1 0%nat 1%nat
           (Array1 [1; 0])).
  - split; [simpl; lra|].
    unfold equalizer_6k_boost, AudioEqualizer_init, default_bands.
    cbn [bands gains with_gains map fst].
    repeat (apply Forall_cons; split; [by vm_compute; eexists|]).
    apply Forall_nil_2.
  - reflexivity.
  - reflexivity.
Defined.

(** Block by block, every call is on its own: the outputs are the
    [equalized] contents of the blocks, one by one. *)
Lemma run_process_blocks (self : AudioEqualizer) (blocks : list ref)
    (arrs outs : list ndarray) (st : store) :
  Forall2 (fun (block : ref) arr => st !! block = Some arr) blocks arrs ->
  Forall2 (fun arr out => equalized self arr = Ok out) arrs outs ->
  exists refs st',
    process_blocks self blocks st = Ok (refs, st')
    /\ Forall2 (fun (r : ref) out => st' !! r = Some out) refs outs
    /\ forall r : ref, (r < length st)%nat -> st' !! r = st !! r.
Proof.
  revert arrs outs st.
  induction blocks as [|block blocks IH]; intros arrs outs st Harrs Houts.
  - inversion Harrs; subst. inversion Houts; subst.
    exists [], st. repeat split; auto.
  - inversion Harrs as [|? arr ? arrs' Hblock Hblocks]; subst.
    inversion Houts as [|? out ? outs' Hout Houts']; subst.
    pose proof (run_apply_equalizer self block arr st Hblock) as Hrun.
    rewrite Hout in Hrun.
    destruct Hrun as (o1 & st1 & Hcall & Hnew & Hres & Hold).
    assert (Hlen : (length st <= length st1)%nat).
    { apply lookup_lt_Some in Hres. lia. }
    destruct (IH arrs' outs' st1) as (refs & st2 & Hrest & Hres2 & Hold2).
    + eapply Forall2_impl; [exact Hblocks|]. intros b x Hb. cbn in *.
      rewrite Hold; [done|]. by eapply lookup_lt_Some.
    + exact Houts'.
    + exists (o1 :: refs), st2. split.
      { simpl. rewrite run_bind, Hcall. rewrite run_bind, Hrest. reflexivity. }
      split.
      { constructor; [|exact Hres2]. rewrite Hold2; [done|].
        by eapply lookup_lt_Some. }
      intros r Hr. rewrite Hold2 by lia. by apply Hold.
Qed.

Lemma clip_above (x : R) : 1 <= x -> clip (-1) 1 x = 1.
Proof.
  intros H. unfold clip, Rmin, Rmax.
  destruct (Rle_dec x (-1)); destruct (Rle_dec _ 1); lra.
Qed.

Lemma clip_zero : clip (-1) 1 0 = 0.
Proof.
  unfold clip, Rmin, Rmax.
  destruct (Rle_dec 0 (-1)); destruct (Rle_dec _ 1); lra.
Qed.

Lemma set_gain_6k_boost :
  set_gain AudioEqualizer_init "6 kHz" 20 = Ok equalizer_6k_boost.
Proof.
  unfold set_gain. destruct (decide _) as [_|Hno]; [done|].
  exfalso. apply Hno. by vm_compute; eexists.
Qed.

(** With the 6 kHz band at +20 dB and the others at 0 dB, the cascade is
    the biquad of the 6 kHz band. *)
Lemma cascade_6k_boost (arr : ndarray) :
  cascade equalizer_6k_boost (bands equalizer_6k_boost) arr
  = match create_peak_filter equalizer_6k_boost 6000 20 1 with
    | Ok (b, a) => Ok (filter_array b a arr)
    | Err e => Err e
    end.
Proof.
  assert (Hzero : forall name : string,
             name <> "6 kHz"%string ->
             is_Some (gains AudioEqualizer_init !! name) ->
             forall (f : R) (x : ndarray),
               band_contents equalizer_6k_boost x (name, f) = Ok x).
  { intros name Hne [v Hv] f x. unfold band_contents. cbn [fst snd].
    unfold equalizer_6k_boost at 1. cbn [gains with_gains].
    rewrite lookup_insert_ne by done.
    assert (v = 0) as ->.
    { unfold AudioEqualizer_init in Hv. cbn [gains] in Hv.
      apply elem_of_list_to_map_2 in Hv.
      unfold default_bands in Hv. cbn [map fst] in Hv.
      repeat (apply elem_of_cons in Hv as [[= _ ->]|Hv]; [done|]).
      by apply elem_of_nil in Hv. }
    rewrite Hv. destruct (Rlt_dec (1 / 10) (Rabs 0)) as [Hbig|_]; [|done].
    rewrite Rabs_R0 in Hbig. lra. }
  assert (Hboost : forall x : ndarray,
             band_contents equalizer_6k_boost x ("6 kHz"%string, 6000)
             = match create_peak_filter equalizer_6k_boost 6000 20 1 with
               | Ok (b, a) => Ok (filter_array b a x)
               | Err e => Err e
               end).
  { intros x. unfold band_contents. cbn [fst snd].
    unfold equalizer_6k_boost at 1. cbn [gains with_gains].
    rewrite lookup_insert_eq.
    destruct (Rlt_dec (1 / 10) (Rabs 20)) as [_|Hsmall].
    - reflexivity.
    - rewrite Rabs_right in Hsmall; lra. }
  change (bands equalizer_6k_boost) with default_bands.
  unfold default_bands. cbn [cascade].
  rewrite !Hzero by (try done; by vm_compute; eexists).
  rewrite Hboost.
  destruct (create_peak_filter equalizer_6k_boost 6000 20 1) as [[b a]|e];
    [|done].
  rewrite !Hzero by (try done; by vm_compute; eexists).
  reflexivity.
Qed.

(** The angle of the 6 kHz band at 44100 Hz lies between [PI/6] and [PI/3],
    where the sine and the cosine are both at least one half. *)
Lemma sin_cos_6k :
  let w0 := 2 * PI * 6000 / 44100 in
  1 / 2 <= sin w0 <= 1 /\ 1 / 2 <= cos w0.
Proof.
  intros w0. pose proof PI_RGT_0 as Hpi.
  assert (Hlo : PI / 6 <= w0) by (unfold w0; lra).
  assert (Hhi : w0 <= PI / 3) by (unfold w0; lra).
  repeat split.
  - rewrite <- sin_PI6. apply sin_incr_1; lra.
  - apply SIN_bound.
  - rewrite <- cos_PI3. apply cos_decr_1; lra.
Qed.

(** The three blocks of the example: a two-sample signal and its two
    one-sample halves. *)
Lemma equalized_6k_boost_blocks :
  equalized equalizer_6k_boost (Array1 [1; 0]) = Ok (Array1 [1; 1])
  /\ equalized equalizer_6k_boost (Array1 [1]) = Ok (Array1 [1])
  /\ equalized equalizer_6k_boost (Array1 [0]) = Ok (Array1 [0]).
Proof.
  unfold equalized. rewrite !cascade_6k_boost.
  unfold create_peak_filter, angular_frequency.
  change (sample_rate equalizer_6k_boost) with 44100.
  destruct (Req_dec_T 44100 0) as [Hz|_]; [lra|].
  destruct sin_cos_6k as [[Hs1 Hs2] Hc]. cbv zeta in Hs1, Hs2, Hc.
  unfold peak_coefficients. cbv zeta.
  set (s := sin (2 * PI * 6000 / 44100)) in *.
  set (c := cos (2 * PI * 6000 / 44100)) in *.
  replace (20 / 20) with 1 by field. rewrite Rpower_1 by lra.
  set (B0 := 1 + s / (2 * 1) * 10).
  set (A0 := 1 + s / (2 * 1) / 10).
  assert (HA0 : 1 < A0 <= 21 / 20) by (unfold A0; lra).
  assert (HB0 : B0 - A0 = 99 / 20 * s) by (unfold A0, B0; field).
  assert (Hy0 : 1 <= B0 / A0 / 1 * 1 + 0).
  { replace (B0 / A0 / 1 * 1 + 0) with (1 + (B0 - A0) / A0) by (field; lra).
    assert (0 <= (B0 - A0) / A0); [|lra].
    apply Rmult_le_pos; [lra|]. left. apply Rinv_0_lt_compat. lra. }
  cbn [filter_array clip_array lfilter lfilter_from map].
  unfold lfilter. cbn [lfilter_from map].
  repeat split.
  - rewrite (clip_above _ Hy0). do 4 f_equal.
    apply clip_above.
    replace (B0 / A0 / 1 * 0
             + (-2 * c / A0 / 1 * 1 - -2 * c / A0 / 1 * (B0 / A0 / 1 * 1 + 0) + 0))
      with (2 * c * (B0 - A0) / (A0 * A0)) by (field; lra).
    rewrite HB0.
    apply (Rmult_le_reg_r (A0 * A0)); [nra|].
    unfold Rdiv. rewrite Rmult_assoc, Rinv_l by nra.
    assert (1 / 4 <= s * c) by nra.
    nra.
  - by rewrite (clip_above _ Hy0).
  - replace (B0 / A0 / 1 * 0 + 0) with 0 by (field; lra).
    by rewrite clip_zero.
Qed.

(** C1, as stated, fails.  After [set_gain("6 kHz", 20.0)] on a new
    equalizer, the signal [[1, 0]] processed as one block gives [[1, 1]];
    processed as two blocks of one sample, one call after the other, it
    gives [[1]] and then [[0]].  The second sample differs by 1, half of
    the whole output range: no history reaches the second call. *)
Lemma block_by_block_differs :
  set_gain AudioEqualizer_init "6 kHz" 20 = Ok equalizer_6k_boost
  /\ exists out st' outs st'',
      apply_equalizer equalizer_6k_boost 0%nat
        [Array1 [1; 0]; Array1 [1]; Array1 [0]] = Ok (out, st')
      /\ st' !! out = Some (Array1 [1; 1])
      /\ process_blocks equalizer_6k_boost [1%nat; 2%nat]
           [Array1 [1; 0]; Array1 [1]; Array1 [0]] = Ok (outs, st'')
      /\ (fun r : ref => st'' !! r) <$> outs
         = [Some (Array1 [1]); Some (Array1 [0])].
Proof.
  split; [exact set_gain_6k_boost|].
  destruct equalized_6k_boost_blocks as (Hwhole & Hfirst & Hsecond).
  set (st := [Array1 [1; 0]; Array1 [1]; Array1 [0]]).
  pose proof (run_apply_equalizer equalizer_6k_boost 0%nat (Array1 [1; 0]) st
                eq_refl) as Hrun.
  rewrite Hwhole in Hrun. destruct Hrun as (out & st' & Hcall & _ & Hout & _).
  destruct (run_process_blocks equalizer_6k_boost [1%nat; 2%nat]
              [Array1 [1]; Array1 [0]] [Array1 [1]; Array1 [0]] st)
    as (outs & st'' & Hcalls & Houts & _).
  { repeat constructor. }
  { repeat constructor; assumption. }
  exists out, st', outs, st''. repeat split; try done.
  inversion Houts as [|o1 ? outs1 ? H1 Hrest]; subst.
  inversion Hrest as [|o2 ? outs2 ? H2 Hnil]; subst.
  inversion Hnil; subst. simpl. by rewrite H1, H2.
Qed.

(** ** More on the gain table *)

(** X1.  [set_gain] on a band of the table stores the gain: a lookup of
    that band then gives the new value, every other entry is as before,
    and the bands, the sample rate and the Q factor are not touched. *)
Theorem set_gain_known_band (self : AudioEqualizer) (band_name : string)
    (old gain_db : R) :
  gains self !! band_name = Some old ->
  exists self',
    set_gain self band_name gain_db = Ok self'
    /\ gains self' !! band_name = Some gain_db
    /\ (forall other : string,
          other <> band_name -> gains self' !! other = gains self !! other)
    /\ bands self' = bands self
    /\ sample_rate self' = sample_rate self
    /\ q_factor self' = q_factor self.
Proof.
  intros Hold. unfold set_gain.
  destruct (decide (is_Some (gains self !! band_name))) as [_|Hno].
  - eexists. split; [reflexivity|]. cbn. split; [apply lookup_insert_eq|].
    split; [|done]. intros other Hne. by apply lookup_insert_ne.
  - exfalso. apply Hno. by eexists.
Qed.

Lemma set_gain_known_band_witness :
  exists self',
    set_gain AudioEqualizer_init "3 kHz" (-4) = Ok self'
    /\ gains self' !! "3 kHz"%string = Some (-4)
    /\ (forall other : string,
          other <> "3 kHz"%string ->
          gains self' !! other = gains AudioEqualizer_init !! other)
    /\ bands self' = bands AudioEqualizer_init
    /\ sample_rate self' = sample_rate AudioEqualizer_init
    /\ q_factor self' = q_factor AudioEqualizer_init.
Proof.
  apply (set_gain_known_band AudioEqualizer_init "3 kHz" 0 (-4)).
  by vm_compute.
Defined.

(** X2.  Whatever the label and the gain, [set_gain] returns and the table
    has the same keys after the call as before: no band is ever added or
    removed. *)
Theorem set_gain_keeps_keys (self : AudioEqualizer) (band_name : string)
    (gain_db : R) :
  exists self',
    set_gain self band_name gain_db = Ok self'
    /\ dom (gains self') = dom (gains self)
    /\ bands self' = bands self.
Proof.
  unfold set_gain.
  destruct (decide (is_Some (gains self !! band_name))) as [Hin|_].
  - eexists. split; [reflexivity|]. cbn. split; [|done].
    rewrite dom_insert_L. apply elem_of_dom in Hin.
    apply subseteq_union_1_L. by apply singleton_subseteq_l.
  - by exists self.
Qed.

Lemma set_gain_present (self : AudioEqualizer) (band_name : string)
    (gain_db : R) :
  is_Some (gains self !! band_name) ->
  set_gain self band_name gain_db
  = Ok (with_gains self (<[band_name := gain_db]> (gains self))).
Proof. intros H. unfold set_gain. by destruct (decide _). Qed.

Lemma set_gain_absent (self : AudioEqualizer) (band_name : string)
    (gain_db : R) :
  gains self !! band_name = None -> set_gain self band_name gain_db = Ok self.
Proof.
  intros H. unfold set_gain. destruct (decide _) as [[v Hv]|_]; congruence.
Qed.

(** X3.  Two calls of [set_gain] in a row: on the same band the last gain
    wins, as if the first call had not been made; on two different bands
    the order of the calls does not matter. *)
Theorem set_gain_twice (self : AudioEqualizer) (name1 name2 : string)
    (g1 g2 : R) :
  exists self1 self12 self2 self21,
    set_gain self name1 g1 = Ok self1
    /\ set_gain self1 name2 g2 = Ok self12
    /\ set_gain self name2 g2 = Ok self2
    /\ set_gain self2 name1 g1 = Ok self21
    /\ (name1 = name2 -> self12 = self2)
    /\ (name1 <> name2 -> self12 = self21).
Proof.
  destruct (decide (name1 = name2)) as [->|Hne].
  - destruct (gains self !! name2) as [v|] eqn:Hv.
    + eexists _, _, _, _.
      split; [by apply set_gain_present|].
      split; [apply set_gain_present; cbn; rewrite lookup_insert_eq; by eexists|].
      split; [by apply set_gain_present|].
      split; [apply set_gain_present; cbn; rewrite lookup_insert_eq; by eexists|].
      split; [|done]. intros _. unfold with_gains. cbn.
      by rewrite insert_insert_eq.
    + exists self, self, self, self.
      repeat (split; [by apply set_gain_absent|]). done.
  - destruct (gains self !! name1) as [v1|] eqn:Hv1;
      destruct (gains self !! name2) as [v2|] eqn:Hv2.
    + eexists _, _, _, _.
      split; [by apply set_gain_present|].
      split; [apply set_gain_present; cbn; by rewrite lookup_insert_ne|].
      split; [by apply set_gain_present|].
      split; [apply set_gain_present; cbn; by rewrite lookup_insert_ne|].
      split; [done|]. intros _. unfold with_gains. cbn. f_equal.
      by apply insert_insert_ne.
    + eexists _, _, _, _.
      split; [by apply set_gain_present|].
      split; [apply set_gain_absent; cbn; by rewrite lookup_insert_ne|].
      split; [by apply set_gain_absent|].
      split; [by apply set_gain_present|]. done.
    + eexists _, _, _, _.
      split; [by apply set_gain_absent|].
      split; [by apply set_gain_present|].
      split; [by apply set_gain_present|].
      split; [apply set_gain_absent; cbn; by rewrite lookup_insert_ne|]. done.
    + exists self, self, self, self.
      repeat (split; [by apply set_gain_absent|]). done.
Qed.

(** ** Blocks that pass through *)

Lemma cascade_small_gains (self : AudioEqualizer) (bs : list (string * R))
    (arr : ndarray) :
  Forall (fun band : string * R =>
            exists gain_db,
              gains self !! band.1 = Some gain_db /\ Rabs gain_db <= 1 / 10) bs ->
  cascade self bs arr = Ok arr.
Proof.
  induction 1 as [|band bs (gain_db & Hgain & Hsmall) _ IH]; [done|].
  simpl. unfold band_contents. rewrite Hgain.
  destruct (Rlt_dec (1 / 10) (Rabs gain_db)) as [Hbig|_]; [lra|exact IH].
Qed.

Lemma clip_inside (x : R) : -1 <= x <= 1 -> clip (-1) 1 x = x.
Proof.
  intros H. unfold clip, Rmin, Rmax.
  destruct (Rle_dec x (-1)); destruct (Rle_dec _ 1); lra.
Qed.

Lemma clip_array_inside (arr : ndarray) :
  all_samples (fun v => -1 <= v <= 1) arr -> clip_array (-1) 1 arr = arr.
Proof.
  destruct arr as [samples|ncols rows]; simpl; intros H; f_equal.
  - induction H as [|x xs Hx _ IH]; [done|]. simpl.
    by rewrite (clip_inside x Hx), IH.
  - induction H as [|row rows' Hrow _ IH]; [done|]. simpl. rewrite IH. f_equal.
    induction Hrow as [|x xs Hx _ IHrow]; [done|]. simpl.
    by rewrite (clip_inside x Hx), IHrow.
Qed.

(** X4.  When the gain of every band is at most 0.1 dB in absolute value
    (zero or not), no band is applied: [apply_equalizer] returns the block
    clipped to [[-1, 1]], and a block whose samples already lie in
    [[-1, 1]] comes back sample for sample. *)
Theorem apply_equalizer_small_gains (self : AudioEqualizer)
    (audio_data : ref) (arr : ndarray) (st : store) :
  Forall (fun band : string * R =>
            exists gain_db,
              gains self !! band.1 = Some gain_db /\ Rabs gain_db <= 1 / 10)
         (bands self) ->
  st !! audio_data = Some arr ->
  exists output st',
    apply_equalizer self audio_data st = Ok (output, st')
    /\ st' !! output = Some (clip_array (-1) 1 arr)
    /\ (all_samples (fun v => -1 <= v <= 1) arr -> st' !! output = Some arr).
Proof.
  intros Hsmall Hst.
  pose proof (run_apply_equalizer self audio_data arr st Hst) as Hrun.
  unfold equalized in Hrun. rewrite (cascade_small_gains _ _ _ Hsmall) in Hrun.
  destruct Hrun as (output & st' & Hcall & _ & Hout & _).
  exists output, st'. split; [done|]. split; [done|].
  intros Hin. by rewrite Hout, (clip_array_inside _ Hin).
Qed.

Lemma apply_equalizer_small_gains_witness :
  exists output st',
    apply_equalizer
      (with_gains AudioEqualizer_init
         (<["1 kHz"%string := 1 / 10]> (gains AudioEqualizer_init)))
      0%nat [Array1 [1 / 2; 3]] = Ok (output, st')
    /\ st' !! output = Some (clip_array (-1) 1 (Array1 [1 / 2; 3]))
    /\ (all_samples (fun v => -1 <= v <= 1) (Array1 [1 / 2; 3]) ->
        st' !! output = Some (Array1 [1 / 2; 3])).
Proof.
  apply apply_equalizer_small_gains.
  - unfold AudioEqualizer_init, default_bands. cbn [bands gains with_gains map fst].
    assert (H0 : Rabs 0 <= 1 / 10) by (rewrite Rabs_R0; lra).
    assert (H1 : Rabs (1 / 10) <= 1 / 10) by (rewrite Rabs_right; lra).
    repeat (apply Forall_cons; split;
            [first [exists 0; split; [by vm_compute|exact H0]
                   |exists (1 / 10); split; [by vm_compute|exact H1]]|]).
    apply Forall_nil_2.
  - reflexivity.
Defined.

(** ** Silence *)

Lemma lfilter_from_zeros (b a : coeffs) (x : list R) :
  Forall (fun v => v = 0) x -> lfilter_from b a 0 0 x = x.
Proof.
  destruct b as [[b0 b1] b2], a as [[a0 a1] a2].
  induction 1 as [|v x Hv _ IH]; [done|]. subst v.
  cbn [lfilter_from].
  replace (b0 / a0 * 0 + 0) with 0 by (unfold Rdiv; ring).
  replace (b1 / a0 * 0 - a1 / a0 * 0 + 0) with 0 by (unfold Rdiv; ring).
  replace (b2 / a0 * 0 - a2 / a0 * 0) with 0 by (unfold Rdiv; ring).
  by rewrite IH.
Qed.

Lemma get_column_zeros (ch : nat) (rows : list (list R)) :
  Forall (Forall (fun v => v = 0)) rows ->
  Forall (fun v => v = 0) (get_column ch rows).
Proof.
  intros H. unfold get_column. apply Forall_map.
  eapply Forall_impl; [exact H|]. intros row Hrow. simpl.
  destruct (nth_in_or_default ch row 0) as [Hin| ->]; [|done].
  rewrite Forall_forall in Hrow. apply Hrow. by apply list_elem_of_In.
Qed.

Lemma insert_zero (ch : nat) (row : list R) :
  Forall (fun v => v = 0) row -> <[ch := 0]> row = row.
Proof.
  intros H. destruct (row !! ch) as [v|] eqn:Hv.
  - apply list_insert_id. rewrite Hv. f_equal.
    rewrite Forall_forall in H. apply H. by eapply list_elem_of_lookup_2.
  - apply list_insert_ge. by apply lookup_ge_None.
Qed.

Lemma set_column_zeros (ch : nat) (rows : list (list R)) :
  Forall (Forall (fun v => v = 0)) rows ->
  set_column ch (get_column ch rows) rows = rows.
Proof.
  induction 1 as [|row rows Hrow Hrows IH]; [done|].
  unfold set_column, get_column in *. simpl. rewrite IH. f_equal.
  assert (nth ch row 0 = 0) as ->.
  { destruct (nth_in_or_default ch row 0) as [Hin| ->]; [|done].
    rewrite Forall_forall in Hrow. apply Hrow. by apply list_elem_of_In. }
  by apply insert_zero.
Qed.

Lemma filter_columns_zeros (b a : coeffs) (chs : list nat)
    (rows : list (list R)) :
  Forall (Forall (fun v => v = 0)) rows ->
  filter_columns b a chs rows = rows.
Proof.
  intros H. induction chs as [|ch chs IH]; [done|].
  simpl. unfold lfilter.
  rewrite (lfilter_from_zeros _ _ _ (get_column_zeros ch rows H)).
  rewrite (set_column_zeros ch rows H). exact IH.
Qed.

Lemma filter_array_zeros (b a : coeffs) (arr : ndarray) :
  all_samples (fun v => v = 0) arr -> filter_array b a arr = arr.
Proof.
  destruct arr as [samples|ncols rows]; simpl; intros H; f_equal.
  - by apply lfilter_from_zeros.
  - by apply filter_columns_zeros.
Qed.

Lemma cascade_zeros (self : AudioEqualizer) (bs : list (string * R))
    (arr arr' : ndarray) :
  all_samples (fun v => v = 0) arr ->
  cascade self bs arr = Ok arr' -> arr' = arr.
Proof.
  intros Hzero. induction bs as [|band bs IH]; simpl.
  - by intros [= <-].
  - unfold band_contents.
    destruct (gains self !! band.1) as [gain_db|]; [|done].
    destruct (Rlt_dec (1 / 10) (Rabs gain_db)); [|exact IH].
    destruct (create_peak_filter _ _ _ _) as [[b a]|]; [|done].
    by rewrite (filter_array_zeros _ _ _ Hzero).
Qed.

Lemma slider_settings_ready (self : AudioEqualizer) :
  slider_settings self -> ready self.
Proof.
  intros (Hrate & _ & Hbands & Hgains). split.
  - rewrite Hrate. lra.
  - rewrite Hbands. eapply Forall_impl; [exact Hgains|].
    intros band (gain_db & Hgain & _). by eexists.
Qed.

(** A new equalizer with the 1 kHz slider at +6 dB. *)
Lemma slider_settings_1k_boost :
  slider_settings
    (with_gains AudioEqualizer_init
       (<["1 kHz"%string := 6]> (gains AudioEqualizer_init))).
Proof.
  repeat split.
  unfold default_bands. cbn [gains with_gains].
  repeat (apply Forall_cons; split;
          [first [exists 0; split; [by vm_compute|lra]
                 |exists 6; split; [by vm_compute|lra]]|]).
  apply Forall_nil_2.
Qed.

(** X5.  Silence stays silence: with the gains anywhere in the range of the
    sliders, on a block all of whose samples are zero [apply_equalizer]
    returns a block of the same contents. *)
Theorem apply_equalizer_silence (self : AudioEqualizer)
    (audio_data : ref) (arr : ndarray) (st : store) :
  slider_settings self ->
  all_samples (fun v => v = 0) arr ->
  st !! audio_data = Some arr ->
  exists output st',
    apply_equalizer self audio_data st = Ok (output, st')
    /\ st' !! output = Some arr.
Proof.
  intros [Hrate Hkeys]%slider_settings_ready Hzero Hst.
  pose proof (run_apply_equalizer self audio_data arr st Hst) as Hrun.
  unfold equalized in Hrun.
  destruct (cascade_returns self (bands self) arr Hrate Hkeys) as [arr' Harr'].
  rewrite Harr' in Hrun. apply (cascade_zeros _ _ _ _ Hzero) in Harr' as ->.
  destruct Hrun as (output & st' & Hcall & _ & Hout & _).
  exists output, st'. split; [done|]. rewrite Hout. f_equal.
  apply clip_array_inside.
  destruct arr as [samples|ncols rows]; simpl in *.
  - eapply Forall_impl; [exact Hzero|]. intros v ->. lra.
  - eapply Forall_impl; [exact Hzero|]. intros row Hrow.
    eapply Forall_impl; [exact Hrow|]. intros v ->. simpl. lra.
Qed.

Lemma apply_equalizer_silence_witness :
  exists output st',
    apply_equalizer
      (with_gains AudioEqualizer_init
         (<["1 kHz"%string := 6]> (gains AudioEqualizer_init)))
      0%nat [Array2 2 [[0; 0]; [0; 0]]]
    = Ok (output, st')
    /\ st' !! output = Some (Array2 2 [[0; 0]; [0; 0]]).
Proof.
  apply apply_equalizer_silence.
  - exact slider_settings_1k_boost.
  - simpl. repeat constructor.
  - reflexivity.
Defined.

(** ** The synthesized section *)

(** The coefficients under the input constraints, with [t = alpha / A] and
    [u = alpha * A] both positive. *)
Lemma create_peak_filter_formula (self : AudioEqualizer)
    (center_freq gain_db q : R) :
  0 < sample_rate self ->
  0 < center_freq < sample_rate self / 2 ->
  0 < q ->
  exists w0 t u,
    0 < w0 < PI
    /\ 0 < t /\ 0 < u
    /\ t = sin w0 / (2 * q) / Rpower 10 (gain_db / 20)
    /\ u = sin w0 / (2 * q) * Rpower 10 (gain_db / 20)
    /\ create_peak_filter self center_freq gain_db q
       = Ok (((1 + u) / (1 + t), -2 * cos w0 / (1 + t), (1 - u) / (1 + t)),
             (1, -2 * cos w0 / (1 + t), (1 - t) / (1 + t))).
Proof.
  intros Hfs Hf Hq.
  destruct (angular_frequency_in_range self center_freq Hfs Hf)
    as (w0 & Hw0 & Hlo & Hhi).
  pose proof (sin_gt_0 w0 Hlo Hhi) as Hsin.
  pose proof (Rpower_10_pos (gain_db / 20)) as HA.
  assert (Halpha : 0 < sin w0 / (2 * q)) by (apply Rdiv_lt_0_compat; lra).
  exists w0. eexists _, _. split; [done|].
  split; [|split; [|split; [reflexivity|split; [reflexivity|]]]].
  - by apply Rdiv_lt_0_compat.
  - by apply Rmult_lt_0_compat.
  - unfold create_peak_filter. rewrite Hw0. reflexivity.
Qed.

Lemma cos_inside (w0 : R) : 0 < w0 < PI -> -1 < cos w0 < 1.
Proof.
  intros [Hlo Hhi]. pose proof (sin_gt_0 w0 Hlo Hhi) as Hsin.
  pose proof (sin2_cos2 w0) as Hsq. unfold Rsqr in Hsq.
  split; nra.
Qed.

Lemma default_bands_below_nyquist (band : string * R) :
  band ∈ default_bands -> 0 < band.2 < 44100 / 2.
Proof.
  unfold default_bands. intros Hin.
  repeat (apply elem_of_cons in Hin as [->|Hin]; [simpl; lra|]).
  by apply elem_of_nil in Hin.
Qed.

(** X7.  For every band of the equalizer (44100 Hz, Q = 1) and every gain in
    the range of the sliders, the denominator of the section satisfies
    [|a2| < 1] and [|a1| < 1 + a2], the stability triangle of a biquad,
    and the numerator satisfies the same inequalities relative to
    [b0 > 0]. *)
Theorem create_peak_filter_stable (self : AudioEqualizer)
    (band : string * R) (gain_db : R) :
  sample_rate self = 44100 ->
  band ∈ default_bands ->
  -12 <= gain_db <= 12 ->
  exists b0 b1 b2 a1 a2,
    create_peak_filter self band.2 gain_db 1 = Ok ((b0, b1, b2), (1, a1, a2))
    /\ Rabs a2 < 1 /\ Rabs a1 < 1 + a2
    /\ 0 < b0 /\ Rabs b2 < b0 /\ Rabs b1 < b0 + b2.
Proof.
  intros Hrate Hband%default_bands_below_nyquist _.
  assert (Hfs : 0 < sample_rate self) by (rewrite Hrate; lra).
  assert (Hf : 0 < band.2 < sample_rate self / 2) by (by rewrite Hrate).
  destruct (create_peak_filter_formula self band.2 gain_db 1 Hfs Hf Rlt_0_1)
    as (w0 & t & u & Hw0 & Ht & Hu & _ & _ & Hcall).
  eexists _, _, _, _, _. split; [exact Hcall|].
  destruct (cos_inside w0 Hw0) as [Hc1 Hc2].
  assert (Hinv : 0 < / (1 + t)) by (apply Rinv_0_lt_compat; lra).
  unfold Rdiv. set (k := / (1 + t)) in *.
  assert (Hk : (1 + t) * k = 1) by (unfold k; apply Rinv_r; lra).
  repeat split.
  - apply Rabs_def1; nra.
  - apply Rabs_def1; nra.
  - nra.
  - apply Rabs_def1; nra.
  - apply Rabs_def1; nra.
Qed.

Lemma create_peak_filter_stable_witness :
  exists b0 b1 b2 a1 a2,
    create_peak_filter AudioEqualizer_init 16000 12 1
    = Ok ((b0, b1, b2), (1, a1, a2))
    /\ Rabs a2 < 1 /\ Rabs a1 < 1 + a2
    /\ 0 < b0 /\ Rabs b2 < b0 /\ Rabs b1 < b0 + b2.
Proof.
  apply (create_peak_filter_stable AudioEqualizer_init ("16 kHz"%string, 16000) 12).
  - reflexivity.
  - unfold default_bands. repeat (first [apply list_elem_of_here
                                        |apply list_elem_of_further]).
  - lra.
Defined.

(** X9.  Under the same constraints the first coefficient [b0], which is
    the first sample of the response of the section to a unit impulse, is
    above 1 for a positive gain in dB, below 1 for a negative one, and 1
    for 0 dB. *)
Theorem create_peak_filter_boost_or_cut (self : AudioEqualizer)
    (center_freq gain_db q : R) :
  0 < sample_rate self ->
  0 < center_freq < sample_rate self / 2 ->
  0 < q ->
  exists b0 b1 b2 a1 a2,
    create_peak_filter self center_freq gain_db q = Ok ((b0, b1, b2), (1, a1, a2))
    /\ lfilter (b0, b1, b2) (1, a1, a2) [1] = [b0]
    /\ (0 < gain_db -> 1 < b0)
    /\ (gain_db < 0 -> b0 < 1)
    /\ (gain_db = 0 -> b0 = 1).
Proof.
  intros Hfs Hf Hq.
  destruct (create_peak_filter_formula self center_freq gain_db q Hfs Hf Hq)
    as (w0 & t & u & Hw0 & Ht & Hu & Htdef & Hudef & Hcall).
  eexists _, _, _, _, _. split; [exact Hcall|].
  split.
  { unfold lfilter. cbn [lfilter_from]. f_equal. field. lra. }
  pose proof (sin_gt_0 w0 (proj1 Hw0) (proj2 Hw0)) as Hsin.
  assert (Halpha : 0 < sin w0 / (2 * q)) by (apply Rdiv_lt_0_compat; lra).
  pose proof (Rpower_10_pos (gain_db / 20)) as HA.
  set (A := Rpower 10 (gain_db / 20)) in *.
  set (alpha := sin w0 / (2 * q)) in *.
  assert (HtA : t * A = alpha) by (rewrite Htdef; field; lra).
  assert (Hinv : 0 < / (1 + t)) by (apply Rinv_0_lt_compat; lra).
  assert (Hk : (1 + t) * / (1 + t) = 1) by (apply Rinv_r; lra).
  unfold Rdiv. repeat split.
  - intros Hpos.
    assert (HA1 : 1 < A).
    { pose proof (Rpower_lt 10 0 (gain_db / 20) ltac:(lra) ltac:(lra)) as Hlt.
      rewrite Rpower_O in Hlt by lra. exact Hlt. }
    assert (t < u) by (rewrite Hudef; nra). nra.
  - intros Hneg.
    assert (HA1 : A < 1).
    { pose proof (Rpower_lt 10 (gain_db / 20) 0 ltac:(lra) ltac:(lra)) as Hlt.
      rewrite Rpower_O in Hlt by lra. exact Hlt. }
    assert (u < t) by (rewrite Hudef; nra). nra.
  - intros ->.
    assert (HA1 : A = 1).
    { unfold A. replace (0 / 20) with 0 by (unfold Rdiv; ring).
      apply Rpower_O. lra. }
    assert (t = u) by (rewrite Hudef; nra). nra.
Qed.

Lemma create_peak_filter_boost_or_cut_witness :
  exists b0 b1 b2 a1 a2,
    create_peak_filter AudioEqualizer_init 310 (-3) 1
    = Ok ((b0, b1, b2), (1, a1, a2))
    /\ lfilter (b0, b1, b2) (1, a1, a2) [1] = [b0]
    /\ (0 < -3 -> 1 < b0)
    /\ (-3 < 0 -> b0 < 1)
    /\ (-3 = 0 -> b0 = 1).
Proof.
  apply (create_peak_filter_boost_or_cut AudioEqualizer_init 310 (-3) 1);
    simpl; lra.
Defined.

(** ** The stream callback *)

Lemma equalized_shape (self : AudioEqualizer) (arr out : ndarray) :
  equalized self arr = Ok out ->
  shape out = shape arr /\ (rectangular arr -> rectangular out).
Proof.
  unfold equalized.
  destruct (cascade self (bands self) arr) as [arr'|] eqn:Hc; [|done].
  intros [= <-]. destruct (cascade_shape _ _ _ _ Hc) as [Hs Hr].
  split.
  - by rewrite shape_clip_array.
  - intros H. by apply rectangular_clip_array, Hr.
Qed.

Lemma broadcast_axis_same {A : Type} (xs : list A) :
  broadcast_axis (length xs) xs = Some xs.
Proof. unfold broadcast_axis. by rewrite decide_True. Qed.

Lemma mapM_broadcast_rows (ncols : nat) (rows : list (list R)) :
  Forall (fun row => length row = ncols) rows ->
  mapM (broadcast_axis ncols) rows = Some rows.
Proof.
  induction 1 as [|row rows Hrow _ IH]; [done|].
  cbn. rewrite <- Hrow at 1. rewrite broadcast_axis_same. cbn.
  rewrite IH. done.
Qed.

Lemma assign_all_same_shape (dst src : ndarray) :
  shape dst = shape src -> rectangular src -> assign_all dst src = Some src.
Proof.
  destruct dst as [old|ncols old], src as [xs|c rows]; simpl; try done.
  - intros [= ->] _. by rewrite broadcast_axis_same.
  - intros [= Hlen ->] Hrect. rewrite decide_True by tauto.
    rewrite Hlen, broadcast_axis_same. cbn.
    by rewrite (mapM_broadcast_rows _ _ Hrect).
Qed.

(** X11.  The stream callback hands the equalized input to the device:
    when [outdata] has the shape of [indata], [audio_callback] returns,
    [outdata] then holds exactly the samples that [apply_equalizer] returns
    for [indata], and every other array that existed before the call
    ([indata] too, unless it is [outdata] itself) is unchanged. *)
Theorem audio_callback_writes_equalized (self : AudioEqualizer)
    (indata outdata : ref) (arr old : ndarray) (st : store) :
  ready self ->
  rectangular arr ->
  st !! indata = Some arr ->
  st !! outdata = Some old ->
  shape old = shape arr ->
  exists output st1 out st',
    apply_equalizer self indata st = Ok (output, st1)
    /\ st1 !! output = Some out
    /\ audio_callback self indata outdata st = Returned st'
    /\ st' !! outdata = Some out
    /\ forall r : ref,
         (r < length st)%nat -> r <> outdata -> st' !! r = st !! r.
Proof.
  intros Hready Hrect Hin Hout Hshape.
  destruct (equalized_returns self arr Hready) as [out Heq].
  destruct (equalized_shape _ _ _ Heq) as [Hs Hr].
  pose proof (run_apply_equalizer self indata arr st Hin) as Hdirect.
  rewrite Heq in Hdirect.
  destruct Hdirect as (output & st1 & Hcall & _ & Hres & _).
  assert (Hcopy : (st ++ [arr]) !! length st = Some arr).
  { rewrite lookup_app_r by lia. by rewrite Nat.sub_diag. }
  pose proof (run_apply_equalizer self (length st) arr (st ++ [arr]) Hcopy)
    as Hinner.
  rewrite Heq in Hinner.
  destruct Hinner as (processed & st2 & Hcall2 & _ & Hres2 & Hold2).
  assert (Hlen : forall r : ref, (r < length st)%nat -> st2 !! r = st !! r).
  { intros r Hr'. rewrite Hold2 by (rewrite length_app; simpl; lia).
    by apply lookup_app_l. }
  assert (Hout_lt : (outdata < length st)%nat) by by eapply lookup_lt_Some.
  assert (Hout2 : st2 !! outdata = Some old) by (by rewrite Hlen).
  exists output, st1, out, (<[outdata := out]> st2).
  split; [exact Hcall|]. split; [exact Hres|]. split.
  { unfold audio_callback, ndarray_copy.
    rewrite !run_bind, (run_load _ _ _ Hin).
    change (alloc arr st) with (@Ok (nat * list ndarray) (length st, st ++ [arr])).
    cbv iota beta. rewrite run_bind, Hcall2.
    rewrite run_bind, (run_load _ _ _ Hres2).
    rewrite run_bind, (run_load _ _ _ Hout2), run_ret.
    rewrite assign_all_same_shape; [done|congruence|by apply Hr]. }
  split.
  { apply list_lookup_insert_eq. by eapply lookup_lt_Some. }
  intros r Hr' Hno. rewrite list_lookup_insert_ne by done. by apply Hlen.
Qed.

Lemma audio_callback_writes_equalized_witness :
  exists output st1 out st',
    apply_equalizer AudioEqualizer_init 0%nat
      [Array2 2 [[2; 0]; [-3; 1 / 4]]; Array2 2 [[0; 0]; [0; 0]]]
    = Ok (output, st1)
    /\ st1 !! output = Some out
    /\ audio_callback AudioEqualizer_init 0%nat 1%nat
         [Array2 2 [[2; 0]; [-3; 1 / 4]]; Array2 2 [[0; 0]; [0; 0]]]
       = Returned st'
    /\ st' !! 1%nat = Some out
    /\ forall r : ref,
         (r < 2)%nat -> r <> 1%nat ->
         st' !! r
         = [Array2 2 [[2; 0]; [-3; 1 / 4]]; Array2 2 [[0; 0]; [0; 0]]] !! r.
Proof.
  apply (audio_callback_writes_equalized AudioEqualizer_init 0%nat 1%nat
           (Array2 2 [[2; 0]; [-3; 1 / 4]]) (Array2 2 [[0; 0]; [0; 0]])).
  - exact ready_init.
  - simpl. repeat constructor.
  - reflexivity.
  - reflexivity.
  - reflexivity.
Defined.

(** ** The reset button *)

Lemma with_gains_same (self : AudioEqualizer) :
  with_gains self (gains self) = self.
Proof. by destruct self. Qed.

(** [set_gain] changes the gain table only, and not its keys. *)
Lemma set_gain_table (self : AudioEqualizer) (band_name : string) (gain_db : R) :
  exists table,
    set_gain self band_name gain_db = Ok (with_gains self table)
    /\ dom table = dom (gains self).
Proof.
  destruct (gains self !! band_name) as [v|] eqn:Hv.
  - eexists. split; [apply set_gain_present; by eexists|].
    rewrite dom_insert_L.
    assert (band_name ∈ dom (gains self)) by (apply elem_of_dom; by eexists).
    apply subseteq_union_1_L. by apply singleton_subseteq_l.
  - exists (gains self). by rewrite with_gains_same, set_gain_absent.
Qed.

Lemma set_gains_table (settings : list (string * R)) (self : AudioEqualizer) :
  exists table,
    set_gains self settings = Ok (with_gains self table)
    /\ dom table = dom (gains self).
Proof.
  revert self. induction settings as [|[band_name gain_db] settings IH];
    intros self.
  - exists (gains self). by rewrite with_gains_same.
  - simpl. destruct (set_gain_table self band_name gain_db) as (t1 & -> & Hd1).
    destruct (IH (with_gains self t1)) as (t2 & -> & Hd2).
    exists t2. split; [done|]. cbn in Hd2. congruence.
Qed.

(** The table after a run of [set_gain(name, 0)] over a list of bands. *)
Lemma set_gains_zero (bs : list (string * R)) (self : AudioEqualizer) :
  exists table,
    set_gains self (map (fun band : string * R => (band.1, 0)) bs)
    = Ok (with_gains self table)
    /\ forall k : string,
         table !! k
         = if decide (k ∈ bs.*1 /\ is_Some (gains self !! k)) then Some 0
           else gains self !! k.
Proof.
  revert self. induction bs as [|[name f] bs IH]; intros self.
  - exists (gains self). rewrite with_gains_same. split; [done|].
    intros k. rewrite decide_False; [done|]. intros [Hin _].
    by apply elem_of_nil in Hin.
  - cbn [map fst]. cbn [set_gains].
    destruct (gains self !! name) as [v|] eqn:Hv.
    + rewrite set_gain_present by (by eexists).
      destruct (IH (with_gains self (<[name := 0]> (gains self))))
        as (table & -> & Htable).
      exists table. split; [done|]. intros k. rewrite Htable.
      cbn [gains with_gains fmap list_fmap fst].
      destruct (decide (k = name)) as [->|Hne].
      * rewrite lookup_insert_eq, Hv.
        rewrite (decide_True (P := name ∈ name :: bs.*1 /\ _));
          [|split; [apply list_elem_of_here|by eexists]].
        by destruct (decide _).
      * rewrite lookup_insert_ne by done.
        destruct (decide (k ∈ bs.*1 /\ is_Some (gains self !! k))) as [[H1 H2]|Hno].
        -- rewrite decide_True; [done|].
           split; [by apply list_elem_of_further|done].
        -- rewrite decide_False; [done|].
           intros [[->|H1]%elem_of_cons H2]; [done|]. by apply Hno.
    + rewrite set_gain_absent by done.
      destruct (IH self) as (table & -> & Htable).
      exists table. split; [done|]. intros k. rewrite Htable.
      cbn [fmap list_fmap fst].
      destruct (decide (k ∈ bs.*1 /\ is_Some (gains self !! k))) as [[H1 H2]|Hno].
      * rewrite decide_True; [done|].
        split; [by apply list_elem_of_further|done].
      * rewrite decide_False; [done|].
        intros [[->|H1]%elem_of_cons H2].
        -- rewrite Hv in H2. by destruct H2.
        -- by apply Hno.
Qed.

Lemma gains_init_lookup (k : string) :
  gains AudioEqualizer_init !! k
  = if decide (k ∈ default_bands.*1) then Some 0 else None.
Proof.
  destruct (decide (k ∈ default_bands.*1)) as [Hin|Hout].
  - unfold default_bands in Hin. cbn [fmap list_fmap fst] in Hin.
    repeat (apply elem_of_cons in Hin as [->|Hin]; [by vm_compute|]).
    by apply elem_of_nil in Hin.
  - apply not_elem_of_list_to_map_1.
    unfold default_bands in *. cbn [map fmap list_fmap fst] in *. exact Hout.
Qed.

(** X12.  The reset button undoes every gain setting: after any sequence
    of calls of [set_gain] on a new equalizer, [reset_all] leaves the
    equalizer in the state of a new one, every gain at 0 dB. *)
Theorem reset_all_restores_init (settings : list (string * R)) :
  exists self,
    set_gains AudioEqualizer_init settings = Ok self
    /\ reset_all self = Ok AudioEqualizer_init.
Proof.
  destruct (set_gains_table settings AudioEqualizer_init) as (t1 & Hset & Hdom).
  eexists. split; [exact Hset|]. unfold reset_all.
  change (bands (with_gains AudioEqualizer_init t1)) with default_bands.
  destruct (set_gains_zero default_bands (with_gains AudioEqualizer_init t1))
    as (t2 & -> & Ht2).
  change (with_gains (with_gains AudioEqualizer_init t1) t2)
    with (with_gains AudioEqualizer_init t2).
  f_equal. rewrite <- (with_gains_same AudioEqualizer_init) at 2. f_equal.
  apply map_eq. intros k. rewrite Ht2, gains_init_lookup.
  cbn [gains with_gains].
  assert (Hsome : is_Some (t1 !! k) <-> k ∈ default_bands.*1).
  { rewrite <- elem_of_dom, Hdom, elem_of_dom, gains_init_lookup.
    destruct (decide (k ∈ default_bands.*1)) as [Hin|Hout].
    - split; [done|]. by eexists.
    - split; [by intros [? ?]|done]. }
  destruct (decide (k ∈ default_bands.*1)) as [Hin|Hout].
  - rewrite decide_True; [done|]. split; [done|]. by apply Hsome.
  - rewrite decide_False by tauto.
    destruct (t1 !! k) as [v|] eqn:Hv; [|done].
    exfalso. apply Hout, Hsome. by eexists.
Qed.

(** ** Polarity *)

Lemma lfilter_from_opp (b a : coeffs) (z0 z1 : R) (x : list R) :
  lfilter_from b a (- z0) (- z1) (map Ropp x)
  = map Ropp (lfilter_from b a z0 z1 x).
Proof.
  destruct b as [[b0 b1] b2], a as [[a0 a1] a2]. revert z0 z1.
  induction x as [|xn x IH]; intros z0 z1; [done|].
  cbn [lfilter_from map]. f_equal; [unfold Rdiv; ring|].
  rewrite <- IH. f_equal; unfold Rdiv; ring.
Qed.

Lemma lfilter_opp (b a : coeffs) (x : list R) :
  lfilter b a (map Ropp x) = map Ropp (lfilter b a x).
Proof.
  unfold lfilter. rewrite <- lfilter_from_opp. by rewrite Ropp_0.
Qed.

Lemma get_column_opp (ch : nat) (rows : list (list R)) :
  get_column ch (map (map Ropp) rows) = map Ropp (get_column ch rows).
Proof.
  unfold get_column. rewrite !map_map. apply map_ext. intros row.
  rewrite <- Ropp_0 at 1. apply map_nth.
Qed.

Lemma set_column_opp (ch : nat) (values : list R) (rows : list (list R)) :
  set_column ch (map Ropp values) (map (map Ropp) rows)
  = map (map Ropp) (set_column ch values rows).
Proof.
  unfold set_column. revert values.
  induction rows as [|row rows IH]; intros [|v values]; try done.
  cbn [map zip_with]. rewrite IH. f_equal.
  change (map Ropp row) with (Ropp <$> row).
  change (map Ropp (<[ch:=v]> row)) with (Ropp <$> <[ch:=v]> row).
  by rewrite list_fmap_insert.
Qed.

Lemma filter_columns_opp (b a : coeffs) (chs : list nat) (rows : list (list R)) :
  filter_columns b a chs (map (map Ropp) rows)
  = map (map Ropp) (filter_columns b a chs rows).
Proof.
  revert rows. induction chs as [|ch chs IH]; intros rows; [done|].
  cbn [filter_columns foldl].
  fold (filter_columns b a chs
          (set_column ch (lfilter b a (get_column ch rows)) rows)).
  rewrite <- IH. unfold filter_columns at 1. f_equal.
  by rewrite get_column_opp, lfilter_opp, set_column_opp.
Qed.

Lemma filter_array_opp (b a : coeffs) (arr : ndarray) :
  filter_array b a (negate_array arr) = negate_array (filter_array b a arr).
Proof.
  destruct arr as [samples|ncols rows]; simpl.
  - by rewrite lfilter_opp.
  - by rewrite filter_columns_opp.
Qed.

Lemma clip_opp (x : R) : clip (-1) 1 (- x) = - clip (-1) 1 x.
Proof.
  unfold clip, Rmin, Rmax.
  destruct (Rle_dec (- x) (-1)); destruct (Rle_dec x (-1));
    repeat match goal with
           | |- context [Rle_dec ?u 1] => destruct (Rle_dec u 1)
           end; lra.
Qed.

Lemma clip_array_opp (arr : ndarray) :
  clip_array (-1) 1 (negate_array arr) = negate_array (clip_array (-1) 1 arr).
Proof.
  destruct arr as [samples|ncols rows]; simpl; f_equal.
  - rewrite !map_map. apply map_ext, clip_opp.
  - rewrite !map_map. apply map_ext. intros row.
    rewrite !map_map. apply map_ext, clip_opp.
Qed.

Lemma cascade_opp (self : AudioEqualizer) (bs : list (string * R))
    (arr arr' : ndarray) :
  cascade self bs arr = Ok arr' ->
  cascade self bs (negate_array arr) = Ok (negate_array arr').
Proof.
  revert arr. induction bs as [|band bs IH]; intros arr; simpl.
  - by intros [= <-].
  - unfold band_contents.
    destruct (gains self !! band.1) as [gain_db|]; [|done].
    destruct (Rlt_dec (1 / 10) (Rabs gain_db)); [|apply IH].
    destruct (create_peak_filter _ _ _ _) as [[b a]|]; [|done].
    rewrite filter_array_opp. apply IH.
Qed.

(** X13.  Inverting the polarity of the input inverts the polarity of the
    output: the block returned for the negated block is the negation of
    the block returned for the block itself, whatever the gains. *)
Theorem apply_equalizer_polarity (self : AudioEqualizer)
    (plus minus : ref) (arr : ndarray) (st_plus st_minus : store) :
  ready self ->
  st_plus !! plus = Some arr ->
  st_minus !! minus = Some (negate_array arr) ->
  exists out_plus st_plus' out_minus st_minus' out,
    apply_equalizer self plus st_plus = Ok (out_plus, st_plus')
    /\ st_plus' !! out_plus = Some out
    /\ apply_equalizer self minus st_minus = Ok (out_minus, st_minus')
    /\ st_minus' !! out_minus = Some (negate_array out).
Proof.
  intros [Hrate Hkeys] Hplus Hminus.
  pose proof (run_apply_equalizer self plus _ st_plus Hplus) as Hrun1.
  pose proof (run_apply_equalizer self minus _ st_minus Hminus) as Hrun2.
  unfold equalized in *.
  destruct (cascade_returns self (bands self) arr Hrate Hkeys) as [arr' Harr'].
  rewrite Harr' in Hrun1. rewrite (cascade_opp _ _ _ _ Harr') in Hrun2.
  destruct Hrun1 as (o1 & s1 & Hcall1 & _ & Hout1 & _).
  destruct Hrun2 as (o2 & s2 & Hcall2 & _ & Hout2 & _).
  exists o1, s1, o2, s2, (clip_array (-1) 1 arr').
  repeat split; try done. by rewrite Hout2, clip_array_opp.
Qed.

Lemma apply_equalizer_polarity_witness :
  exists out_plus st_plus' out_minus st_minus' out,
    apply_equalizer equalizer_6k_boost 0%nat [Array1 [1; 0]]
    = Ok (out_plus, st_plus')
    /\ st_plus' !! out_plus = Some out
    /\ apply_equalizer equalizer_6k_boost 0%nat [Array1 [-1; -0]]
       = Ok (out_minus, st_minus')
    /\ st_minus' !! out_minus = Some (negate_array out).
Proof.
  apply (apply_equalizer_polarity equalizer_6k_boost 0%nat 0%nat (Array1 [1; 0])).
  - split; [simpl; lra|].
    unfold equalizer_6k_boost, AudioEqualizer_init, default_bands.
    cbn [bands gains with_gains map fst].
    repeat (apply Forall_cons; split; [by vm_compute; eexists|]).
    apply Forall_nil_2.
  - reflexivity.
  - reflexivity.
Defined.

(** ** Delay *)

Lemma lfilter_from_delay (b a : coeffs) (k : nat) (x : list R) :
  lfilter_from b a 0 0 (replicate k 0 ++ x)
  = replicate k 0 ++ lfilter_from b a 0 0 x.
Proof.
  destruct b as [[b0 b1] b2], a as [[a0 a1] a2].
  induction k as [|k IH]; [done|].
  cbn [replicate app lfilter_from].
  replace (b0 / a0 * 0 + 0) with 0 by (unfold Rdiv; ring).
  replace (b1 / a0 * 0 - a1 / a0 * 0 + 0) with 0 by (unfold Rdiv; ring).
  replace (b2 / a0 * 0 - a2 / a0 * 0) with 0 by (unfold Rdiv; ring).
  by rewrite IH.
Qed.

Lemma nth_replicate_zero (ch ncols : nat) : nth ch (replicate ncols 0) 0 = 0.
Proof.
  destruct (nth_in_or_default ch (replicate ncols 0) 0) as [Hin| ->]; [|done].
  apply list_elem_of_In, elem_of_replicate in Hin. by destruct Hin.
Qed.

Lemma get_column_delay (ch k ncols : nat) (rows : list (list R)) :
  get_column ch (replicate k (replicate ncols 0) ++ rows)
  = replicate k 0 ++ get_column ch rows.
Proof.
  unfold get_column. rewrite map_app. f_equal.
  induction k as [|k IH]; [done|]. cbn [replicate map].
  by rewrite nth_replicate_zero, IH.
Qed.

Lemma set_column_delay (ch k ncols : nat) (values : list R)
    (rows : list (list R)) :
  set_column ch (replicate k 0 ++ values) (replicate k (replicate ncols 0) ++ rows)
  = replicate k (replicate ncols 0) ++ set_column ch values rows.
Proof.
  unfold set_column. induction k as [|k IH]; [done|].
  cbn [replicate app zip_with]. rewrite IH. f_equal.
  apply insert_zero, Forall_forall. intros v Hv.
  apply elem_of_replicate in Hv. by destruct Hv.
Qed.

Lemma filter_columns_delay (b a : coeffs) (chs : list nat) (k ncols : nat)
    (rows : list (list R)) :
  filter_columns b a chs (replicate k (replicate ncols 0) ++ rows)
  = replicate k (replicate ncols 0) ++ filter_columns b a chs rows.
Proof.
  revert rows. induction chs as [|ch chs IH]; intros rows; [done|].
  cbn [filter_columns foldl].
  fold (filter_columns b a chs
          (set_column ch (lfilter b a (get_column ch rows)) rows)).
  rewrite <- IH. unfold filter_columns at 1. f_equal.
  rewrite get_column_delay. unfold lfilter.
  by rewrite lfilter_from_delay, set_column_delay.
Qed.

Lemma filter_array_delay (b a : coeffs) (k : nat) (arr : ndarray) :
  filter_array b a (delay_array k arr) = delay_array k (filter_array b a arr).
Proof.
  destruct arr as [samples|ncols rows]; simpl.
  - unfold lfilter. by rewrite lfilter_from_delay.
  - by rewrite filter_columns_delay.
Qed.

Lemma map_clip_zeros (k : nat) : map (clip (-1) 1) (replicate k 0) = replicate k 0.
Proof.
  induction k as [|k IH]; [done|]. cbn [replicate map]. by rewrite clip_zero, IH.
Qed.

Lemma clip_array_delay (k : nat) (arr : ndarray) :
  clip_array (-1) 1 (delay_array k arr) = delay_array k (clip_array (-1) 1 arr).
Proof.
  destruct arr as [samples|ncols rows]; simpl; rewrite map_app; do 2 f_equal.
  - apply map_clip_zeros.
  - induction k as [|k IH]; [done|]. cbn [replicate map].
    by rewrite map_clip_zeros, IH.
Qed.

Lemma cascade_delay (self : AudioEqualizer) (bs : list (string * R))
    (k : nat) (arr arr' : ndarray) :
  cascade self bs arr = Ok arr' ->
  cascade self bs (delay_array k arr) = Ok (delay_array k arr').
Proof.
  revert arr. induction bs as [|band bs IH]; intros arr; simpl.
  - by intros [= <-].
  - unfold band_contents.
    destruct (gains self !! band.1) as [gain_db|]; [|done].
    destruct (Rlt_dec (1 / 10) (Rabs gain_db)); [|apply IH].
    destruct (create_peak_filter _ _ _ _) as [[b a]|]; [|done].
    rewrite filter_array_delay. apply IH.
Qed.

(** X14.  Silence in front of a block only delays what comes out: with the
    gains anywhere in the range of the sliders, for the block preceded by
    [k] frames of silence [apply_equalizer] returns [k] frames of silence
    followed by the block it returns for the block itself. *)
Theorem apply_equalizer_delay (self : AudioEqualizer) (k : nat)
    (now later : ref) (arr : ndarray) (st_now st_later : store) :
  slider_settings self ->
  st_now !! now = Some arr ->
  st_later !! later = Some (delay_array k arr) ->
  exists out_now st_now' out_later st_later' out,
    apply_equalizer self now st_now = Ok (out_now, st_now')
    /\ st_now' !! out_now = Some out
    /\ apply_equalizer self later st_later = Ok (out_later, st_later')
    /\ st_later' !! out_later = Some (delay_array k out).
Proof.
  intros [Hrate Hkeys]%slider_settings_ready Hnow Hlater.
  pose proof (run_apply_equalizer self now _ st_now Hnow) as Hrun1.
  pose proof (run_apply_equalizer self later _ st_later Hlater) as Hrun2.
  unfold equalized in *.
  destruct (cascade_returns self (bands self) arr Hrate Hkeys) as [arr' Harr'].
  rewrite Harr' in Hrun1. rewrite (cascade_delay _ _ k _ _ Harr') in Hrun2.
  destruct Hrun1 as (o1 & s1 & Hcall1 & _ & Hout1 & _).
  destruct Hrun2 as (o2 & s2 & Hcall2 & _ & Hout2 & _).
  exists o1, s1, o2, s2, (clip_array (-1) 1 arr').
  repeat split; try done. by rewrite Hout2, clip_array_delay.
Qed.

Lemma apply_equalizer_delay_witness :
  exists out_now st_now' out_later st_later' out,
    apply_equalizer
      (with_gains AudioEqualizer_init
         (<["1 kHz"%string := 6]> (gains AudioEqualizer_init)))
      0%nat [Array2 1 [[1]; [1 / 2]]]
    = Ok (out_now, st_now')
    /\ st_now' !! out_now = Some out
    /\ apply_equalizer
         (with_gains AudioEqualizer_init
            (<["1 kHz"%string := 6]> (gains AudioEqualizer_init)))
         0%nat [Array2 1 [[0]; [0]; [1]; [1 / 2]]]
       = Ok (out_later, st_later')
    /\ st_later' !! out_later = Some (delay_array 2 out).
Proof.
  apply (apply_equalizer_delay _ 2 0%nat 0%nat (Array2 1 [[1]; [1 / 2]])).
  - exact slider_settings_1k_boost.
  - reflexivity.
  - reflexivity.
Defined.

(** ** The output range *)

(** X15.  With the gains anywhere in the range of the sliders, on every
    block whose samples lie in [[-1, 1]] [apply_equalizer] returns a block
    all of whose samples lie in [[-1, 1]]. *)
Theorem apply_equalizer_in_range_for_sliders (self : AudioEqualizer)
    (audio_data : ref) (arr : ndarray) (st : store) :
  slider_settings self ->
  st !! audio_data = Some arr ->
  all_samples (fun v => -1 <= v <= 1) arr ->
  exists output st' out,
    apply_equalizer self audio_data st = Ok (output, st')
    /\ st' !! output = Some out
    /\ all_samples (fun v => -1 <= v <= 1) out.
Proof.
  intros [Hrate Hkeys]%slider_settings_ready Hst _.
  pose proof (run_apply_equalizer self audio_data arr st Hst) as Hrun.
  unfold equalized in Hrun.
  destruct (cascade_returns self (bands self) arr Hrate Hkeys) as [arr' Harr'].
  rewrite Harr' in Hrun. destruct Hrun as (output & st' & Hcall & _ & Hout & _).
  exists output, st', (clip_array (-1) 1 arr'). repeat split; try done.
  apply clip_array_in_range. lra.
Qed.

Lemma apply_equalizer_in_range_for_sliders_witness :
  exists output st' out,
    apply_equalizer
      (with_gains AudioEqualizer_init
         (<["1 kHz"%string := 6]> (gains AudioEqualizer_init)))
      0%nat [Array1 [1 / 2; -1; 0]] = Ok (output, st')
    /\ st' !! output = Some out
    /\ all_samples (fun v => -1 <= v <= 1) out.
Proof.
  apply (apply_equalizer_in_range_for_sliders _ 0%nat (Array1 [1 / 2; -1; 0])).
  - exact slider_settings_1k_boost.
  - reflexivity.
  - simpl. repeat constructor; lra.
Defined.
